(** * Deletion-benchmark report analysis (cmd/stress/analyze_results.py)

    A shallow embedding of the script: the report parser
    ([parse_result_file]), the loading loops and the aggregation of the two
    candidate-value analyses ([analyze_tree_sizes],
    [analyze_branching_factors]), the by-pattern analysis
    ([analyze_patterns]) and [main], followed by the properties of the
    specification that were checked against them.

    How the program is modelled.
    - A text is a list of ASCII characters; [\d] and [\w] are the ASCII
      classes.  Pattern names are [string]s, ordered by code point
      ([String_as_OT]), which is the order of Python's [str].
    - [re.search] and [re.findall] are modelled for the constructs the
      three patterns use, as a backtracking matcher that lists the ways of
      matching in the order the engine tries them.
    - [float] is IEEE binary64 ([spec_float], precision 53, exponent bound
      1024); [float(s)] and [/] round to nearest even.
    - A run reads a file system (path to file or directory), leaves a
      trace of what it prints, reads and plots, and returns or raises.
      Exceptions propagate: the script contains no handler.  A regular
      file can be read as text, opening a directory raises, and the
      plotting calls do not raise.
    - What the interpreter and the libraries leave open is a parameter
      ([runtime]): the digit limit of [int], the order in which a set is
      listed, the colours sampled from the palette.  *)

From Stdlib Require Import ZArith Ascii List Lia Bool.
From Stdlib Require String.
From Stdlib Require Import Floats.SpecFloat.
From Stdlib Require Import Sorting.Sorted Sorting.Permutation.
From Stdlib Require Import Structures.OrdersEx.
From Stdlib Require Import Numbers.DecimalString.
From stdpp Require Import base list strings gmap sorting.

(** Python [str] values as character lists. *)
Abbreviation str := (list ascii).

Definition lit (s : string) : str := String.list_ascii_of_string s.

(* ===================================================================== *)
(** * Python built-ins used by the script *)
(* ===================================================================== *)

Module Py.

(** Exceptions the script can meet; none of them is caught anywhere. *)
Inductive exn :=
| ValueError
| IndexError
| FileNotFoundError
| IsADirectoryError.

Inductive result (A : Type) :=
| Ok (a : A)
| Raise (e : exn).
Arguments Ok {A} a.
Arguments Raise {A} e.

Definition rbind {A B} (m : result A) (f : A → result B) : result B :=
  match m with
  | Ok a => f a
  | Raise e => Raise e
  end.

Fixpoint rmapM {A B} (f : A → result B) (l : list A) : result (list B) :=
  match l with
  | [] => Ok []
  | x :: l' =>
      rbind (f x) (λ y, rbind (rmapM f l') (λ ys, Ok (y :: ys)))
  end.

(** ** Characters *)

Definition code (c : ascii) : nat := nat_of_ascii c.

Definition in_range (lo hi : nat) (c : ascii) : bool :=
  (Nat.leb lo (code c)) && (Nat.leb (code c) hi).

(** [\d] on ASCII text: '0'..'9'. *)
Definition is_digit (c : ascii) : bool := in_range 48 57 c.

(** [\w] on ASCII text: letters, digits and the underscore. *)
Definition is_word (c : ascii) : bool :=
  is_digit c || in_range 65 90 c || in_range 97 122 c || Nat.eqb (code c) 95.

Definition is_dot (c : ascii) : bool := Nat.eqb (code c) 46.

(** Whitespace stripped by [int()] and [float()]. *)
Definition is_space (c : ascii) : bool :=
  in_range 9 13 c || in_range 28 32 c.

Definition to_lower (c : ascii) : ascii :=
  if in_range 65 90 c then ascii_of_nat (code c + 32) else c.

Definition char_eqb (a b : ascii) : bool := Ascii.eqb a b.

(** ** Strings *)

Fixpoint startswith (p s : str) : bool :=
  match p, s with
  | [], _ => true
  | _ :: _, [] => false
  | a :: p', b :: s' => char_eqb a b && startswith p' s'
  end.

(** [sub in s] *)
Fixpoint contains (sub s : str) : bool :=
  startswith sub s ||
  match s with
  | [] => false
  | _ :: s' => contains sub s'
  end.

(** [s.replace(old, new)] for a non-empty [old]: occurrences are replaced
    from left to right and do not overlap; [skip] counts the characters of
    the occurrence just replaced that are still to be passed over. *)
Fixpoint replace_from (old new : str) (skip : nat) (s : str) : str :=
  match s with
  | [] => []
  | c :: s' =>
      match skip with
      | S k => replace_from old new k s'
      | O =>
          if startswith old s
          then new ++ replace_from old new (Nat.pred (length old)) s'
          else c :: replace_from old new O s'
      end
  end.

Definition replace (old new s : str) : str :=
  match old with
  | [] => new ++ flat_map (λ c, c :: new) s
  | _ => replace_from old new O s
  end.

Definition strip (s : str) : str :=
  let dropl := fix dropl (s : str) : str :=
    match s with
    | c :: s' => if is_space c then dropl s' else s
    | [] => []
    end in
  rev (dropl (rev (dropl s))).

(** ** Numbers *)

Definition digit_val (c : ascii) : Z := (Z.of_nat (code c) - 48)%Z.

Definition digits_val (ds : str) : Z :=
  fold_left (λ acc c, (10 * acc + digit_val c)%Z) ds 0%Z.

(** Underscores in a numeric literal: each one must stand between two
    digits; they are then dropped.  [prev] is the previous character. *)
Fixpoint drop_underscores (prev : option ascii) (s : str) : option str :=
  match s with
  | [] => Some []
  | c :: s' =>
      if Nat.eqb (code c) 95 then
        match prev, s' with
        | Some p, n :: _ =>
            if is_digit p && is_digit n then drop_underscores (Some c) s'
            else None
        | _, _ => None
        end
      else option_map (cons c) (drop_underscores (Some c) s')
  end.

Definition split_sign (s : str) : bool * str :=
  match s with
  | c :: s' =>
      if Nat.eqb (code c) 45 then (true, s')
      else if Nat.eqb (code c) 43 then (false, s')
      else (false, s)
  | [] => (false, [])
  end.

(** [int(s)] in base 10.  [max_digits] is the interpreter's limit on the
    number of digits converted ([sys.get_int_max_str_digits()], 4300 by
    default since CPython 3.11; 0 switches the limit off). *)
Definition int (max_digits : nat) (s : str) : result Z :=
  match drop_underscores None (strip s) with
  | None => Raise ValueError
  | Some t =>
      let '(neg, ds) := split_sign t in
      if forallb is_digit ds && negb (Nat.eqb (length ds) 0) then
        if Nat.ltb 0 max_digits && Nat.ltb max_digits (length ds)
        then Raise ValueError
        else Ok (if neg then (- digits_val ds)%Z else digits_val ds)
      else Raise ValueError
  end.

(** [str(n)] *)
Definition str_of_int (n : Z) : string :=
  NilZero.string_of_int (Z.to_int n).

(** *** binary64 *)

Definition float := spec_float.

Definition prec : Z := 53%Z.
Definition emax : Z := 1024%Z.

(** An integer operand of a float operation is first converted. *)
Definition float_of_Z (n : Z) : float :=
  binary_normalize prec emax n 0%Z false.

Definition fdiv (x y : float) : float := SFdiv prec emax x y.
Definition flt (x y : float) : bool := SFltb x y.
Definition feq (x y : float) : bool := SFeqb x y.

(** The correctly rounded value of [m * 10^e] for [m >= 0]. *)
Definition decimal_to_float (neg : bool) (m e : Z) : float :=
  match m with
  | Zpos p =>
      if (0 <=? e)%Z
      then binary_normalize prec emax
             ((if neg then -1 else 1) * (m * 10 ^ e))%Z 0%Z false
      else SFdiv prec emax (S754_finite neg p 0%Z)
                            (S754_finite false (Z.to_pos (10 ^ (- e))) 0%Z)
  | _ => S754_zero neg
  end.

(** Longest prefix of digits, and the rest. *)
Fixpoint span_digits (s : str) : str * str :=
  match s with
  | c :: s' =>
      if is_digit c then let '(ds, r) := span_digits s' in (c :: ds, r)
      else ([], s)
  | [] => ([], [])
  end.

(** The exponent part: [e] or [E], an optional sign and at least one
    digit.  It must use up the rest of the literal. *)
Definition parse_exponent (s : str) : option Z :=
  match s with
  | [] => Some 0%Z
  | c :: s' =>
      if char_eqb (to_lower c) "e"%char then
        let '(neg, t) := split_sign s' in
        let '(ds, r) := span_digits t in
        match ds, r with
        | _ :: _, [] =>
            Some (if neg then (- digits_val ds)%Z else digits_val ds)
        | _, _ => None
        end
      else None
  end.

(** [float(s)]: optional surrounding whitespace and sign, then [inf],
    [infinity] or [nan] in any case, or a decimal literal
    [digits [. digits] [exponent]] with at least one digit before the
    exponent.  Values out of range round to infinity, never to an error. *)
Definition float_of_str (s : str) : result float :=
  match drop_underscores None (strip s) with
  | None => Raise ValueError
  | Some t =>
      let '(neg, u) := split_sign t in
      let low := map to_lower u in
      if bool_decide (low = lit "inf") || bool_decide (low = lit "infinity")
      then Ok (S754_infinity neg)
      else if bool_decide (low = lit "nan") then Ok S754_nan
      else
        let '(ip, r1) := span_digits u in
        let '(fp, r2) :=
          match r1 with
          | c :: r => if is_dot c then span_digits r else ([], r1)
          | [] => ([], [])
          end in
        match ip ++ fp with
        | [] => Raise ValueError
        | ds =>
            match parse_exponent r2 with
            | Some e =>
                Ok (decimal_to_float neg (digits_val ds)
                                     (e - Z.of_nat (length fp))%Z)
            | None => Raise ValueError
            end
        end
  end.

(** [sorted(l)]: a stable sort that only ever asks [a < b]. *)
Fixpoint insert_sorted {A} (lt : A → A → bool) (x : A) (l : list A) : list A :=
  match l with
  | [] => [x]
  | y :: l' => if lt y x then y :: insert_sorted lt x l' else x :: y :: l'
  end.

Definition sorted {A} (lt : A → A → bool) (l : list A) : list A :=
  foldr (insert_sorted lt) [] l.

(** [a < b] and [a == b] on [str]. *)
Definition str_lt (a b : string) : bool :=
  match String_as_OT.compare a b with Lt => true | _ => false end.

End Py.

Import Py.

(* ===================================================================== *)
(** * The regular expressions of module [re] that the script uses *)
(* ===================================================================== *)

Module Re.

(** Literals, a repeated character class ([c+], [c*], [c*?]), capture
    groups and concatenation: what the three patterns are made of. *)
Inductive regex :=
| Lit (s : str)
| Rep (greedy : bool) (c : ascii → bool) (least : nat)
| Group (r : regex)
| Cat (r1 r2 : regex).

(** The rests of [s] after 0, 1, 2, ... characters of class [c]. *)
Fixpoint run_rests (c : ascii → bool) (s : str) : list str :=
  s :: match s with
       | a :: s' => if c a then run_rests c s' else []
       | [] => []
       end.

(** A backtracking matcher as a list of successes: every way in which [r]
    matches a prefix of [s], in the order in which the engine tries them
    (a greedy repetition tries the longest run first, a lazy one the
    shortest).  Each success carries the texts of the groups, in the order
    of their opening parentheses, and the unread rest of [s]. *)
Fixpoint matches (r : regex) (s : str) : list (list str * str) :=
  match r with
  | Lit l =>
      if startswith l s then [([], drop (length l) s)] else []
  | Rep greedy c least =>
      let rests := drop least (run_rests c s) in
      map (pair []) (if greedy then rev rests else rests)
  | Group r =>
      map (λ '(gs, rest), (take (length s - length rest) s :: gs, rest))
          (matches r s)
  | Cat r1 r2 =>
      flat_map (λ '(g1, s1),
                map (λ '(g2, s2), (g1 ++ g2, s2)) (matches r2 s1))
               (matches r1 s)
  end.

(** A match object: where the match starts and ends, its groups, and the
    text after it. *)
Record match_obj := {
  m_start : nat;
  m_end : nat;
  m_groups : list str;
  m_rest : str
}.

(** [m.group(i)] for [i >= 1]. *)
Definition group (m : match_obj) (i : nat) : str := nth (Nat.pred i) (m_groups m) [].

Definition nonempty_at (s : str) (x : list str * str) : bool :=
  negb (Nat.eqb (length (snd x)) (length s)).

(** The match at the very start of [s] (at offset [pos] of the whole
    text).  After an empty match the scan must advance: an empty match at
    the same place is then refused, and the engine backtracks. *)
Definition match_here (r : regex) (must_advance : bool) (pos : nat) (s : str)
  : option match_obj :=
  let cands := if must_advance then List.filter (nonempty_at s) (matches r s)
               else matches r s in
  match cands with
  | (gs, rest) :: _ =>
      Some {| m_start := pos; m_end := pos + (length s - length rest);
              m_groups := gs; m_rest := rest |}
  | [] => None
  end.

(** The leftmost match at or after the start of [s]. *)
Fixpoint scan (r : regex) (must_advance : bool) (pos : nat) (s : str)
  : option match_obj :=
  match match_here r must_advance pos s with
  | Some m => Some m
  | None =>
      match s with
      | [] => None
      | _ :: s' => scan r false (S pos) s'
      end
  end.

(** [re.search(r, s)] *)
Definition search (r : regex) (s : str) : option match_obj := scan r false 0 s.

(** The successive non-overlapping matches, left to right. *)
Fixpoint finditer_from (r : regex) (fuel : nat) (must_advance : bool)
         (pos : nat) (s : str) : list match_obj :=
  match fuel with
  | O => []
  | S fuel' =>
      match scan r must_advance pos s with
      | None => []
      | Some m =>
          m :: finditer_from r fuel' (Nat.eqb (m_end m) (m_start m))
                 (m_end m) (m_rest m)
      end
  end.

Definition finditer (r : regex) (s : str) : list match_obj :=
  finditer_from r (2 * length s + 2) false 0 s.

(** [re.findall(r, s)] for a pattern with groups: the groups of each
    match. *)
Definition findall (r : regex) (s : str) : list (list str) :=
  map m_groups (finditer r s).


(** The words a pattern denotes, regardless of the order of search. *)
Fixpoint lang (r : regex) (w : str) : Prop :=
  match r with
  | Lit l => w = l
  | Rep _ c least => least ≤ length w ∧ forallb c w = true
  | Group r => lang r w
  | Cat r1 r2 => ∃ w1 w2, w = w1 ++ w2 ∧ lang r1 w1 ∧ lang r2 w2
  end.

(** [w] is matched by [r] with the group texts [gs]. *)
Fixpoint sem (r : regex) (w : str) (gs : list str) : Prop :=
  match r with
  | Lit l => w = l ∧ gs = []
  | Rep _ c least => least ≤ length w ∧ forallb c w = true ∧ gs = []
  | Group r => ∃ gs', sem r w gs' ∧ gs = w :: gs'
  | Cat r1 r2 =>
      ∃ w1 w2 g1 g2,
        w = w1 ++ w2 ∧ gs = g1 ++ g2 ∧ sem r1 w1 g1 ∧ sem r2 w2 g2
  end.



End Re.

Import Re.

Infix "-:-" := Cat (at level 60, right associativity).

(* ===================================================================== *)
(** * The world outside the script *)
(* ===================================================================== *)

(** What the interpreter and the plotting libraries leave open. *)
Definition rgba : Type := float * float * float * float.

Record runtime := {
  (** [sys.get_int_max_str_digits()] *)
  int_max_str_digits : nat;
  (** the order in which [list(a_set)] enumerates a set of [str]:
      some order of its elements, fixed by the hashing of the run *)
  set_listing : gset string → list string;
  set_listing_perm : ∀ X, set_listing X ≡ₚ elements X;
  (** [plt.cm.tab10(np.linspace(0, 1, n))]: one colour for each of the
      [n] sample points *)
  tab10_linspace : nat → list rgba;
  tab10_linspace_length : ∀ n, length (tab10_linspace n) = n
}.

(** A path names a regular file with its text, or a directory. *)
Inductive node :=
| File (content : str)
| Dir.

Abbreviation filesystem := (gmap string node).

(** Calls into [matplotlib.pyplot], in the order they are made. *)
Inductive plt_call :=
| figure (width height : Z)
| plot (x : list Z) (y : list float) (fmt label : string) (color : rgba)
| bar (x : list string) (height : list float)
| xscale (value : string)
| xlabel (s : string)
| ylabel (s : string)
| title (s : string)
| legend
| grid (visible : bool)
| xticks_rotation (degrees : Z)
| tight_layout
| savefig (fname : string)
| close.

(** What a run does to the outside: lines printed, files opened and read,
    plotting calls. *)
Inductive event :=
| EvPrint (line : string)
| EvRead (filename : string)
| EvPlt (c : plt_call).

(** A computation reads the file system, leaves a trace of events and
    returns or raises.  The script writes only the three images under
    [results/], whose paths it never tests or reads, so the file system
    is not threaded through. *)
Definition io (A : Type) : Type := filesystem → list event * result A.

Definition io_ret {A} (a : A) : io A := λ _, ([], Ok a).

Definition io_bind {A B} (m : io A) (f : A → io B) : io B :=
  λ fs,
    match m fs with
    | (t, Ok a) => let '(t', r) := f a fs in (t ++ t', r)
    | (t, Raise e) => (t, Raise e)
    end.

Definition emit (e : event) : io unit := λ _, ([e], Ok tt).
Definition print (line : string) : io unit := emit (EvPrint line).
Definition plt (c : plt_call) : io unit := emit (EvPlt c).
Definition lift {A} (r : result A) : io A := λ _, ([], r).

(** [os.path.exists(path)] *)
Definition path_exists (path : string) : io bool :=
  λ fs, ([], Ok (bool_decide (is_Some (fs !! path)))).

(** [open(filename, 'r')] followed by [f.read()] *)
Definition read_file (filename : string) : io str :=
  λ fs,
    match fs !! filename with
    | Some (File content) => ([EvRead filename], Ok content)
    | Some Dir => ([], Raise IsADirectoryError)
    | None => ([], Raise FileNotFoundError)
    end.

Declare Scope io_scope.
Delimit Scope io_scope with io.
Notation "x <- m ;; k" := (io_bind m (λ x, k))
  (at level 100, m at next level, right associativity) : io_scope.
Notation "m ;;; k" := (io_bind m (λ _, k))
  (at level 100, right associativity) : io_scope.
Notation "x <~ m ;; k" := (rbind m (λ x, k))
  (at level 100, m at next level, right associativity) : io_scope.
Local Open Scope io_scope.

(* ===================================================================== *)
(** * The script *)
(* ===================================================================== *)

Record pattern_result := {
  pattern : string;
  time_sec : float;
  keys_per_sec : float
}.

Record report := {
  tree_size : Z;
  branching_factor : Z;
  pattern_results : list pattern_result
}.

(** [r'Keys: (\d+)'] *)
Definition keys_re : regex :=
  Lit (lit "Keys: ") -:- Group (Rep true is_digit 1).

(** [r'Branching Factor: (\d+)'] *)
Definition bf_re : regex :=
  Lit (lit "Branching Factor: ") -:- Group (Rep true is_digit 1).

(** [[\d.]] and, under [re.DOTALL], [.] *)
Definition digit_or_dot (c : ascii) : bool := is_digit c || is_dot c.
Definition any_char (c : ascii) : bool := true.

Definition start_marker : str := lit "Running deletion test with pattern: ".

(** [([\d.]+\w+)] *)
Definition duration_re : regex :=
  Group (Rep true digit_or_dot 1 -:- Rep true is_word 1).

(** [r'Deletion completed in ([\d.]+\w+) \(([\d.]+) keys/sec\)'] *)
Definition completion_re : regex :=
  Lit (lit "Deletion completed in ") -:-
  duration_re -:-
  Lit (lit " (") -:-
  Group (Rep true digit_or_dot 1) -:-
  Lit (lit " keys/sec)").

(** The text of a completion marker with the given duration token and
    throughput. *)
Definition completion (tok num : str) : str :=
  lit "Deletion completed in " ++ tok ++ lit " (" ++ num ++ lit " keys/sec)".

(** The name announced by a start marker: [(\w+)] *)
Definition name_re : regex := Rep true is_word 1.

(** [r'Running deletion test with pattern: (\w+).*?Deletion completed in
    ([\d.]+\w+) \(([\d.]+) keys/sec\)'] with [re.DOTALL] *)
Definition trial_re : regex :=
  Lit start_marker -:-
  Group name_re -:-
  Rep false any_char 0 -:-
  completion_re.

(** Lines 28-33: the duration token in seconds. *)
Definition time_seconds (time_str : str) : result float :=
  if contains (lit "ms") time_str then
    v <~ float_of_str (replace (lit "ms") [] time_str) ;;
    Ok (fdiv v (float_of_Z 1000))
  else if contains (lit "s") time_str then
    float_of_str (replace (lit "s") [] time_str)
  else
    float_of_str time_str.

(** Lines 26-39, for one tuple of [re.findall]. *)
Definition pattern_result_of (section : list str) : result pattern_result :=
  let pattern := nth 0 section [] in
  let time_str := nth 1 section [] in
  let keys_per_sec := nth 2 section [] in
  time_sec <~ time_seconds time_str ;;
  kps <~ float_of_str keys_per_sec ;;
  Ok {| pattern := String.string_of_list_ascii pattern;
        time_sec := time_sec;
        keys_per_sec := kps |}.

Section Script.

Context (rt : runtime).

(** Lines 13-45 of [parse_result_file]: from the text read to the
    metrics. *)
Definition extract_tree_size (content : str) : result Z :=
  match search keys_re content with
  | Some m => int (int_max_str_digits rt) (group m 1)
  | None => Ok 0%Z
  end.

Definition extract_branching_factor (content : str) : result Z :=
  match search bf_re content with
  | Some m => int (int_max_str_digits rt) (group m 1)
  | None => Ok 0%Z
  end.

Definition extract_pattern_results (content : str)
  : result (list pattern_result) :=
  rmapM pattern_result_of (findall trial_re content).

Definition parse_text (content : str) : result report :=
  tree_size <~ extract_tree_size content ;;
  branching_factor <~ extract_branching_factor content ;;
  pattern_results <~ extract_pattern_results content ;;
  Ok {| tree_size := tree_size;
        branching_factor := branching_factor;
        pattern_results := pattern_results |}.

Definition parse_result_file (filename : string) : io report :=
  content <- read_file filename ;;
  lift (parse_text content).

(** The loading loop of both candidate-value analyses (lines 52-55 and
    96-99): [results] is the list built so far. *)
Fixpoint load_results (filenames : list string) (results : list report)
  : io (list report) :=
  match filenames with
  | [] => io_ret results
  | filename :: rest =>
      present <- path_exists filename ;;
      if present : bool then
        r <- parse_result_file filename ;;
        load_results rest (results ++ [r])
      else load_results rest results
  end.

(** Lines 64-67: the set of pattern names. *)
Definition collect_patterns (results : list report) : gset string :=
  fold_left
    (λ patterns result,
       fold_left (λ patterns pr, patterns ∪ {[ pattern pr ]})
                 (pattern_results result) patterns)
    results ∅.

(** Line 69: [sorted(list(patterns))] *)
Definition series_order (results : list report) : list string :=
  sorted str_lt (set_listing rt (collect_patterns results)).

(** Lines 73-79: the points of one pattern. *)
Definition series_points (variable : report → Z) (results : list report)
           (name : string) : list Z * list float :=
  fold_left
    (λ xy result,
       fold_left
         (λ '(x, y) pr,
            if String.eqb (pattern pr) name
            then (x ++ [variable result], y ++ [keys_per_sec pr])
            else (x, y))
         (pattern_results result) xy)
    results ([], []).

(** Lines 72-80: one [plt.plot] for each pattern, [i] counting from the
    first. *)
Fixpoint plot_series (variable : report → Z) (results : list report)
         (colors : list rgba) (i : nat) (patterns : list string) : io unit :=
  match patterns with
  | [] => io_ret tt
  | name :: rest =>
      let '(x, y) := series_points variable results name in
      color <- lift (match colors !! i with
                     | Some c => Ok c
                     | None => Raise IndexError
                     end) ;;
      plt (plot x y "o-" name color) ;;;
      plot_series variable results colors (S i) rest
  end.

(** The common shape of [analyze_tree_sizes] and
    [analyze_branching_factors]. *)
Definition candidate_analysis (filenames : list string)
           (variable : report → Z) (nothing_found x_label chart_title
            image : string) : io unit :=
  results <- load_results filenames [] ;;
  match results with
  | [] => print nothing_found
  | _ :: _ =>
      plt (figure 10 6) ;;;
      let patterns := series_order results in
      let colors := tab10_linspace rt (length patterns) in
      plot_series variable results colors 0 patterns ;;;
      plt (xscale "log") ;;;
      plt (xlabel x_label) ;;;
      plt (ylabel "Deletion Speed (keys/second)") ;;;
      plt (title chart_title) ;;;
      plt legend ;;;
      plt (grid true) ;;;
      plt (savefig image) ;;;
      plt close
  end.

Definition sizes : list Z := [10000; 100000; 1000000]%Z.
Definition factors : list Z := [16; 64; 256; 1024]%Z.

Definition size_filename (size : Z) : string :=
  "results/size_" +:+ str_of_int size +:+ ".txt".

Definition bf_filename (bf : Z) : string :=
  "results/bf_" +:+ str_of_int bf +:+ ".txt".

Definition analyze_tree_sizes : io unit :=
  candidate_analysis (map size_filename sizes) tree_size
    "No tree size results found."
    "Tree Size (number of keys)"
    "Deletion Performance vs Tree Size"
    "results/tree_size_performance.png".

Definition analyze_branching_factors : io unit :=
  candidate_analysis (map bf_filename factors) branching_factor
    "No branching factor results found."
    "Branching Factor"
    "Deletion Performance vs Branching Factor"
    "results/branching_factor_performance.png".

(** [a < b] on the pairs of [zip(patterns, speeds)]: the first components
    that differ decide. *)
Definition pair_lt (a b : string * float) : bool :=
  if String.eqb a.1 b.1 then
    if feq a.2 b.2 then false else flt a.2 b.2
  else str_lt a.1 b.1.

(** Lines 148-156: [sorted(zip(patterns, speeds))] *)
Definition sorted_data (result : report) : list (string * float) :=
  let patterns := map pattern (pattern_results result) in
  let speeds := map keys_per_sec (pattern_results result) in
  sorted pair_lt (zip patterns speeds).

Definition analyze_patterns : io unit :=
  let filename := "results/size_1000000.txt" in
  present <- path_exists filename ;;
  if negb present then
    print ("File " +:+ filename +:+ " not found.")
  else
    result <- parse_result_file filename ;;
    plt (figure 10 6) ;;;
    let patterns := map fst (sorted_data result) in
    let speeds := map snd (sorted_data result) in
    plt (bar patterns speeds) ;;;
    plt (xlabel "Deletion Pattern") ;;;
    plt (ylabel "Deletion Speed (keys/second)") ;;;
    plt (title ("Deletion Performance by Pattern (Tree Size: "
                +:+ str_of_int (tree_size result) +:+ ")")) ;;;
    plt (xticks_rotation 45) ;;;
    plt tight_layout ;;;
    plt (savefig "results/pattern_performance.png") ;;;
    plt close.

Definition main : io unit :=
  present <- path_exists "results" ;;
  if negb present then
    print "Results directory not found."
  else
    analyze_tree_sizes ;;;
    analyze_branching_factors ;;;
    analyze_patterns ;;;
    print "Analysis complete. Graphs saved to results directory.".

End Script.




(** The arguments of each [plt.bar]. *)
Definition bar_calls (t : list event) : list (list string * list float) :=
  flat_map (λ e, match e with
                 | EvPlt (bar x height) => [(x, height)]
                 | _ => []
                 end) t.

(* ===================================================================== *)
(** * The rules of the specification *)
(* ===================================================================== *)

Module Spec.



(** The points of one series as the specification words them: one point
    for every occurrence of the pattern, report after report. *)
Definition points_spec (variable : report → Z) (results : list report)
           (name : string) : list (Z * float) :=
  flat_map
    (λ result,
       map (λ pr, (variable result, keys_per_sec pr))
           (List.filter (λ pr, String.eqb (pattern pr) name)
                        (pattern_results result)))
    results.



(** The distinct pattern names of one report. *)
Definition distinct_names (result : report) : gset string :=
  list_to_set (map pattern (pattern_results result)).

End Spec.

(* ===================================================================== *)
(** * Runtimes and texts for the examples *)
(* ===================================================================== *)

Module Examples.

(** The ten colours of the [tab10] palette, as fractions of 255. *)
Definition rgb (r g b : Z) : rgba :=
  (fdiv (float_of_Z r) (float_of_Z 255), fdiv (float_of_Z g) (float_of_Z 255),
   fdiv (float_of_Z b) (float_of_Z 255), float_of_Z 1).

Definition tab10 : list rgba :=
  [rgb 31 119 180; rgb 255 127 14; rgb 44 160 44; rgb 214 39 40;
   rgb 148 103 189; rgb 140 86 75; rgb 227 119 194; rgb 127 127 127;
   rgb 188 189 34; rgb 23 190 207].

(** The palette entry of sample point [i] of [n] evenly spaced ones. *)
Definition sample (n i : nat) : rgba :=
  nth (if Nat.eqb n 1 then 0 else Nat.min 9 (10 * i / (n - 1))) tab10
      (rgb 0 0 0).

Definition samples (n : nat) : list rgba := map (sample n) (seq 0 n).

Definition samples_length (n : nat) : length (samples n) = n :=
  eq_trans (length_map (sample n) (seq 0 n)) (length_seq n 0).

(** A runtime with the default digit limit, and one that lists every set
    the other way round. *)
Definition runtime1 : runtime :=
  {| int_max_str_digits := 4300;
     set_listing := elements;
     set_listing_perm := λ X, Permutation_refl (elements X);
     tab10_linspace := samples;
     tab10_linspace_length := samples_length |}.

Definition runtime2 : runtime :=
  {| int_max_str_digits := 4300;
     set_listing := λ X, rev (elements X);
     set_listing_perm :=
       λ X, Permutation_sym (Permutation_rev (elements X));
     tab10_linspace := samples;
     tab10_linspace_length := samples_length |}.

Definition nl : string := String (ascii_of_nat 10) EmptyString.

(** Scenario A of the specification. *)
Definition report_a : str :=
  lit ("Keys: 100000" +:+ nl +:+
       "Branching Factor: 64" +:+ nl +:+
       "Running deletion test with pattern: sequential" +:+ nl +:+
       "Deletion completed in 250ms (400000.00 keys/sec)" +:+ nl).

(** Scenario B: the same with a duration in seconds. *)
Definition report_b : str :=
  lit ("Keys: 100000" +:+ nl +:+
       "Branching Factor: 64" +:+ nl +:+
       "Running deletion test with pattern: sequential" +:+ nl +:+
       "Deletion completed in 1.5s (400000.00 keys/sec)" +:+ nl).

(** Two trials, one of them measured in seconds. *)
Definition report_two : str :=
  lit ("Keys: 1000000" +:+ nl +:+
       "Branching Factor: 16" +:+ nl +:+
       "Running deletion test with pattern: sequential" +:+ nl +:+
       "Deletion completed in 250ms (400000.00 keys/sec)" +:+ nl +:+
       "Running deletion test with pattern: random" +:+ nl +:+
       "Deletion completed in 1.5s (5 keys/sec)" +:+ nl).

(** The same pattern tried twice. *)
Definition report_twice : str :=
  lit ("Keys: 1000000" +:+ nl +:+
       "Running deletion test with pattern: random" +:+ nl +:+
       "Deletion completed in 2s (7 keys/sec)" +:+ nl +:+
       "Running deletion test with pattern: random" +:+ nl +:+
       "Deletion completed in 1s (5 keys/sec)" +:+ nl).

(** A throughput that is not a number. *)
Definition report_bad : str :=
  lit ("Keys: 10000" +:+ nl +:+
       "Running deletion test with pattern: random" +:+ nl +:+
       "Deletion completed in 2s (1.2.3 keys/sec)" +:+ nl).



(** The values 0.25, 1.5, 5, 7 and 400000 in binary64. *)
Definition f0_25 : float := S754_finite false 4503599627370496 (-54).
Definition f1_5 : float := S754_finite false 6755399441055744 (-52).
Definition f5 : float := S754_finite false 5629499534213120 (-50).
Definition f7 : float := S754_finite false 7881299347898368 (-50).
Definition f400000 : float := S754_finite false 6871947673600000 (-34).

(** Scenario C: reports for sizes 10000 and 1000000, none for 100000. *)
Definition fs_sizes : filesystem :=
  {[ "results" := Dir;
     "results/size_10000.txt" := File report_a;
     "results/size_1000000.txt" := File report_two ]}.

(** The report for the largest size tries one pattern twice. *)
Definition fs_twice : filesystem :=
  {[ "results" := Dir;
     "results/size_1000000.txt" := File report_twice ]}.

(** The first report read is malformed; the reports of the two other
    analyses are sound. *)
Definition fs_bad_size : filesystem :=
  {[ "results" := Dir;
     "results/size_10000.txt" := File report_bad;
     "results/bf_16.txt" := File report_two;
     "results/size_1000000.txt" := File report_two ]}.

(** No tree-size report; the malformed one is a branching-factor
    report. *)
Definition fs_bad_bf : filesystem :=
  {[ "results" := Dir;
     "results/bf_64.txt" := File report_bad ]}.

(** An empty [results] directory. *)
Definition fs_empty : filesystem := {[ "results" := Dir ]}.

Definition trial (name : string) (speed : float) : pattern_result :=
  {| pattern := name; time_sec := f1_5; keys_per_sec := speed |}.

(** Scenario D: the same two patterns, met in different orders. *)
Definition results_d1 : list report :=
  [ {| tree_size := 10000; branching_factor := 16;
       pattern_results := [trial "sequential" f5; trial "random" f7] |};
    {| tree_size := 100000; branching_factor := 16;
       pattern_results := [trial "random" f5; trial "sequential" f7] |} ].

Definition results_d2 : list report :=
  [ {| tree_size := 10000; branching_factor := 64;
       pattern_results :=
         [trial "random" f7; trial "random" f5; trial "sequential" f5] |} ].


End Examples.

(* ===================================================================== *)
(** * Further notions *)
(* ===================================================================== *)

(** [r'<label>(\d+)'], the shape of [keys_re] and [bf_re]. *)
Definition integer_re (label : str) : regex :=
  Lit label -:- Group (Rep true is_digit 1).

(** [int(ds)] for a run of digits [ds], read off [Py.int]. *)
Definition int_of_digits (max_digits : nat) (ds : str) : result Z :=
  if Nat.ltb 0 max_digits && Nat.ltb max_digits (length ds)
  then Raise ValueError
  else Ok (digits_val ds).

(** Where [rest] begins, a run of class [c] ends. *)
Definition ends_run (c : ascii → bool) (rest : str) : Prop :=
  match rest with
  | [] => True
  | a :: _ => c a = false
  end.

(** A float that is neither negative nor NaN (zero, a positive number or
    plus infinity): what a duration or a throughput is meant to be. *)
Definition nonneg_float (x : float) : bool :=
  match x with
  | S754_zero false | S754_infinity false | S754_finite false _ _ => true
  | _ => false
  end.

(** ** Report texts built from trial blocks *)








(** ** Numerals of digits and dots *)

(** What [float] accepts among the texts of [[\d.]+]: at most one dot and
    at least one digit. *)
Definition numeral_ok (num : str) : bool :=
  (length (List.filter is_dot num) <=? 1) && existsb is_digit num.

(** The value of such a numeral: its digits read as one integer, scaled
    down by ten for each digit after the dot. *)
Definition numeral_value (num : str) : float :=
  let digits := List.filter is_digit num in
  let fraction := List.filter is_digit (span_digits num).2 in
  decimal_to_float false (digits_val digits) (- Z.of_nat (length fraction)).

(** ** What a run reads and writes *)

(** The files opened and the images saved, read back from a trace. *)
Definition reads (t : list event) : list string :=
  flat_map (λ e, match e with EvRead f => [f] | _ => [] end) t.

Definition saved (t : list event) : list string :=
  flat_map (λ e, match e with EvPlt (savefig f) => [f] | _ => [] end) t.

Definition printed (t : list event) : list string :=
  flat_map (λ e, match e with EvPrint line => [line] | _ => [] end) t.

(** The paths the three analyses try, in the order they try them. *)
Definition candidate_files : list string :=
  map size_filename sizes ++ map bf_filename factors ++
  ["results/size_1000000.txt"].

Definition exists_at (fs : filesystem) (f : string) : bool :=
  bool_decide (is_Some (fs !! f)).

Definition is_file (fs : filesystem) (f : string) : bool :=
  match fs !! f with Some (File _) => true | _ => false end.

(** One analysis of [main]: the files it tries, the image it saves and
    the line it prints when it has no data. *)
Record stage := {
  st_files : list string;
  st_image : string;
  st_diagnostic : string
}.

Definition main_stages : list stage :=
  [ {| st_files := map size_filename sizes;
       st_image := "results/tree_size_performance.png";
       st_diagnostic := "No tree size results found." |};
    {| st_files := map bf_filename factors;
       st_image := "results/branching_factor_performance.png";
       st_diagnostic := "No branching factor results found." |};
    {| st_files := ["results/size_1000000.txt"];
       st_image := "results/pattern_performance.png";
       st_diagnostic := "File results/size_1000000.txt not found." |} ].


(** What an analysis that ends normally saves and prints: its image when
    one of its files exists, its diagnostic when none does. *)
Definition stage_images (fs : filesystem) (st : stage) : list string :=
  if existsb (exists_at fs) (st_files st) then [st_image st] else [].

Definition stage_messages (fs : filesystem) (st : stage) : list string :=
  if existsb (exists_at fs) (st_files st) then [] else [st_diagnostic st].

(** What a sequence of analyses does: when it ends normally every one of
    them did all of its work; when it raises, those before the failing
    one did all of theirs, the failing one read some of its files and
    saved and printed nothing, and the later ones did nothing. *)
Definition outcome (fs : filesystem) (stages : list stage)
           (tr : list event * result unit) : Prop :=
  Forall (λ f, is_file fs f = true) (reads tr.1) ∧
  match tr.2 with
  | Ok _ =>
      reads tr.1 = List.filter (exists_at fs) (flat_map st_files stages) ∧
      saved tr.1 = flat_map (stage_images fs) stages ∧
      printed tr.1 = flat_map (stage_messages fs) stages
  | Raise e =>
      (e = ValueError ∨ e = IsADirectoryError) ∧
      ∃ before failing after partial,
        stages = before ++ failing :: after ∧
        reads tr.1
        = List.filter (exists_at fs) (flat_map st_files before) ++ partial ∧
        sublist partial (st_files failing) ∧
        saved tr.1 = flat_map (stage_images fs) before ∧
        printed tr.1 = flat_map (stage_messages fs) before
  end.

Definition completion_message : string :=
  "Analysis complete. Graphs saved to results directory.".

(** ** More sample inputs *)

Module MoreExamples.

Import Examples.


(** What [report_two] parses to. *)
Definition parsed_two : report :=
  {| tree_size := 1000000; branching_factor := 16;
     pattern_results :=
       [ {| pattern := "sequential"; time_sec := f0_25;
            keys_per_sec := f400000 |};
         {| pattern := "random"; time_sec := f1_5; keys_per_sec := f5 |} ] |}.




(** A directory where a branching-factor report is expected. *)
Definition fs_directory : filesystem :=
  {[ "results" := Dir;
     "results/size_10000.txt" := File report_a;
     "results/bf_16.txt" := Dir ]}.

End MoreExamples.

(* ===================================================================== *)
(** * Facts about the built-ins *)
(* ===================================================================== *)

Section StringFacts.

Lemma char_eqb_eq a b : char_eqb a b = true ↔ a = b.
Proof. apply Ascii.eqb_eq. Qed.

Lemma startswith_app l rest : startswith l (l ++ rest) = true.
Proof.
  induction l as [|a l IH]; simpl; [done|].
  rewrite IH, andb_true_r. by apply char_eqb_eq.
Qed.

Lemma startswith_inv l s :
  startswith l s = true → s = l ++ drop (length l) s.
Proof.
  revert s. induction l as [|a l IH]; intros [|b s]; simpl; try done.
  intros [Hab Hl]%andb_true_iff. apply char_eqb_eq in Hab as ->.
  f_equal. by apply IH.
Qed.







End StringFacts.

(* ===================================================================== *)
(** * The matcher against the meaning of the patterns *)
(* ===================================================================== *)

Module ReFacts.

Lemma lang_sem r w : lang r w ↔ ∃ gs, sem r w gs.
Proof.
  revert w. induction r as [l|g c least|r IH|r1 IH1 r2 IH2]; intros w; simpl.
  - split; [intros ->; by exists []|by intros (? & ? & _)].
  - split; [intros [??]; by exists []|by intros (? & ? & ? & _)].
  - rewrite IH. split.
    + intros [gs H]. exists (w :: gs), gs. done.
    + intros (? & gs & H & _). by exists gs.
  - split.
    + intros (w1 & w2 & -> & [g1 H1]%IH1 & [g2 H2]%IH2).
      exists (g1 ++ g2), w1, w2, g1, g2. done.
    + intros (? & w1 & w2 & g1 & g2 & -> & _ & H1 & H2).
      exists w1, w2. split; [done|]. split; [apply IH1|apply IH2]; eauto.
Qed.

Lemma run_rests_spec c s least rest :
  In rest (drop least (run_rests c s)) ↔
  ∃ w, s = w ++ rest ∧ least ≤ length w ∧ forallb c w = true.
Proof.
  revert least. induction s as [|a s IH]; intros least.
  - destruct least as [|k]; simpl.
    + split.
      * intros [<-|[]]. by exists [].
      * intros (w & Hw & _). symmetry in Hw.
        apply app_eq_nil in Hw as [_ ->]. by left.
    + rewrite drop_nil. split; [done|].
      intros (w & Hw & Hlen & _). symmetry in Hw.
      apply app_eq_nil in Hw as [-> _]. simpl in Hlen. lia.
  - destruct least as [|k].
    + change (drop 0 (run_rests c (a :: s)))
        with ((a :: s) :: (if c a then run_rests c s else [])).
      split.
      * intros [<-|Hin]; [by exists []|].
        destruct (c a) eqn:Hc; [|done].
        apply (IH 0) in Hin as (w & -> & _ & Hw).
        exists (a :: w). simpl. rewrite Hc, Hw. split_and!; [done|lia|done].
      * intros ([|b w] & Hs & _ & Hw); simpl in *.
        { left. done. }
        right. injection Hs as <- ->.
        apply andb_true_iff in Hw as [-> Hw].
        apply (IH 0). exists w. split_and!; [done|lia|done].
    + change (drop (S k) (run_rests c (a :: s)))
        with (drop k (if c a then run_rests c s else [])).
      split.
      * intros Hin. destruct (c a) eqn:Hc; [|by rewrite drop_nil in Hin].
        apply IH in Hin as (w & -> & Hk & Hw).
        exists (a :: w). simpl. rewrite Hc, Hw. split_and!; [done|lia|done].
      * intros ([|b w] & Hs & Hk & Hw); simpl in *; [lia|].
        injection Hs as <- ->.
        apply andb_true_iff in Hw as [-> Hw].
        apply IH. exists w. split_and!; [done|lia|done].
Qed.

(** The matcher finds exactly the splits of [s] that the pattern allows. *)
Lemma matches_sem r s gs rest :
  In (gs, rest) (matches r s) ↔ ∃ w, s = w ++ rest ∧ sem r w gs.
Proof.
  revert s gs rest.
  induction r as [l|g c least|r IH|r1 IH1 r2 IH2]; intros s gs rest; simpl.
  - destruct (startswith l s) eqn:Hl.
    + apply startswith_inv in Hl. split.
      * intros [[= <- <-]|[]]. by exists l.
      * intros (w & Hs & -> & ->). left. f_equal.
        rewrite Hs, drop_app_length. done.
    + split; [done|]. intros (w & -> & -> & _).
      by rewrite startswith_app in Hl.
  - rewrite in_map_iff. split.
    + intros (rest' & [= <- <-] & Hin).
      assert (In rest' (drop least (run_rests c s))) as Hin'.
      { destruct g; [by apply in_rev|done]. }
      apply run_rests_spec in Hin' as (w & ? & ? & ?). by exists w.
    + intros (w & Hs & Hk & Hw & ->). exists rest. split; [done|].
      assert (In rest (drop least (run_rests c s))) as Hin.
      { apply run_rests_spec. by exists w. }
      destruct g; [by apply in_rev in Hin|done].
  - rewrite in_map_iff. split.
    + intros ([gs' rest'] & [= <- <-] & Hin).
      apply IH in Hin as (w & -> & Hw). exists w. split; [done|].
      exists gs'. split; [done|]. f_equal.
      rewrite length_app.
      replace (length w + length rest' - length rest')%nat with (length w) by lia.
      by rewrite take_app_length.
    + intros (w & -> & gs' & Hw & ->). exists (gs', rest). split.
      * f_equal. f_equal. rewrite length_app.
        replace (length w + length rest - length rest)%nat with (length w) by lia.
        by rewrite take_app_length.
      * apply IH. by exists w.
  - rewrite in_flat_map. split.
    + intros ([g1 s1] & Hin1 & Hin2).
      apply in_map_iff in Hin2 as ([g2 s2] & [= <- <-] & Hin2).
      apply IH1 in Hin1 as (w1 & -> & H1).
      apply IH2 in Hin2 as (w2 & -> & H2).
      exists (w1 ++ w2). split; [by rewrite app_assoc|].
      exists w1, w2, g1, g2. done.
    + intros (w & -> & w1 & w2 & g1 & g2 & -> & -> & H1 & H2).
      exists (g1, w2 ++ rest). split.
      * apply IH1. exists w1. by rewrite app_assoc.
      * apply in_map_iff. exists (g2, rest). split; [done|].
        apply IH2. by exists w2.
Qed.




(** ** Scanning *)


Lemma match_here_some r ma pos s m :
  match_here r ma pos s = Some m →
  In (m_groups m, m_rest m) (matches r s) ∧
  m_start m = pos ∧
  m_end m = pos + (length s - length (m_rest m)) ∧
  (ma = true → length (m_rest m) ≠ length s).
Proof.
  unfold match_here. intros H.
  destruct ma.
  - destruct (List.filter _ _) as [|[gs rest] ms] eqn:Hf; [done|].
    injection H as <-. simpl.
    assert (In (gs, rest) (List.filter (nonempty_at s) (matches r s))) as Hin
      by (rewrite Hf; by left).
    apply filter_In in Hin as [Hin Hne]. split_and!; try done.
    intros _. unfold nonempty_at in Hne. simpl in Hne.
    apply negb_true_iff, Nat.eqb_neq in Hne. done.
  - destruct (matches r s) as [|[gs rest] ms] eqn:Hm; [done|].
    injection H as <-. simpl. split_and!; try done. by left.
Qed.



(** What a successful scan returns: a match [k] characters further on. *)
Lemma scan_some r ma pos s m :
  scan r ma pos s = Some m →
  ∃ k, k ≤ length s ∧
       m_start m = pos + k ∧
       In (m_groups m, m_rest m) (matches r (drop k s)) ∧
       m_end m = m_start m + (length (drop k s) - length (m_rest m)) ∧
       (ma = true → k = 0 → length (m_rest m) ≠ length s).
Proof.
  revert ma pos. induction s as [|a s IH]; intros ma pos; simpl.
  - destruct (match_here r ma pos []) as [m'|] eqn:Hm; [|done].
    intros [= ->]. apply match_here_some in Hm as (? & ? & ? & ?).
    exists 0. split_and!; simpl in *; try done; try lia; auto.
  - destruct (match_here r ma pos (a :: s)) as [m'|] eqn:Hm.
    + intros [= ->]. apply match_here_some in Hm as (? & ? & ? & ?).
      exists 0. split_and!; simpl in *; try done; try lia; auto.
    + intros (k & ? & ? & ? & ? & _)%IH.
      exists (S k). split_and!; simpl in *; try done; lia.
Qed.





(** ** Enough fuel *)





(** Every match reported is a true occurrence of the pattern. *)
Lemma finditer_sound r fuel ma pos s m :
  In m (finditer_from r fuel ma pos s) →
  ∃ k w, k ≤ length s ∧ m_start m = pos + k ∧
         drop k s = w ++ m_rest m ∧ sem r w (m_groups m) ∧
         m_end m = m_start m + length w.
Proof.
  revert ma pos s. induction fuel as [|fuel IH]; intros ma pos s; simpl; [done|].
  destruct (scan r ma pos s) as [m0|] eqn:Hscan; [|done].
  apply scan_some in Hscan as (k & Hk & Hst & Hin & Hend & _).
  apply matches_sem in Hin as (w & Hd & Hw).
  assert (m_end m0 = m_start m0 + length w) as Hend'.
  { rewrite Hend, Hd, length_app. lia. }
  intros [<-|Hin].
  - exists k, w. done.
  - apply IH in Hin as (k' & w' & Hk' & Hst' & Hd' & Hw' & He').
    exists (k + length w + k'), w'.
    assert (length s = k + length w + length (m_rest m0)) as Hlen.
    { rewrite <-(take_drop k s) at 1. rewrite length_app, length_take, Hd, length_app. lia. }
    split_and!; [lia|lia| |done|done].
    rewrite <-Hd'. rewrite <-!drop_drop, Hd, drop_app_length. done.
Qed.

(** ** The first way tried that succeeds *)









End ReFacts.

Import ReFacts.

(* ===================================================================== *)
(** * The patterns of the script *)
(* ===================================================================== *)

Section Patterns.










End Patterns.

(* ===================================================================== *)
(** * The report parser *)
(* ===================================================================== *)

Section Parser.















End Parser.

(* ===================================================================== *)
(** * Loading, and the flow of a run *)
(* ===================================================================== *)

Section Run.

Context (rt : runtime).

Lemma io_bind_ok {A B} (m : io A) (f : A → io B) fs t a :
  m fs = (t, Ok a) → io_bind m f fs = (t ++ (f a fs).1, (f a fs).2).
Proof. intros H. unfold io_bind. rewrite H. by destruct (f a fs). Qed.

Lemma io_bind_raise {A B} (m : io A) (f : A → io B) fs t e :
  m fs = (t, Raise e) → io_bind m f fs = (t, Raise e).
Proof. intros H. unfold io_bind. by rewrite H. Qed.

Lemma path_exists_present fs path :
  is_Some (fs !! path) → path_exists path fs = ([], Ok true).
Proof. intros H. unfold path_exists. by rewrite bool_decide_eq_true_2. Qed.

Lemma path_exists_absent (fs : filesystem) path :
  fs !! path = None → path_exists path fs = ([], Ok false).
Proof.
  intros H. unfold path_exists. rewrite bool_decide_eq_false_2; [done|].
  rewrite H. by intros [? ?].
Qed.

Lemma parse_result_file_ok (fs : filesystem) filename content r :
  fs !! filename = Some (File content) → parse_text rt content = Ok r →
  parse_result_file rt filename fs = ([EvRead filename], Ok r).
Proof.
  intros Hf Hp. unfold parse_result_file, io_bind, read_file, lift.
  by rewrite Hf, Hp.
Qed.

Lemma parse_result_file_raise (fs : filesystem) filename content e :
  fs !! filename = Some (File content) → parse_text rt content = Raise e →
  parse_result_file rt filename fs = ([EvRead filename], Raise e).
Proof.
  intros Hf Hp. unfold parse_result_file, io_bind, read_file, lift.
  by rewrite Hf, Hp.
Qed.

Lemma load_results_absent (fs : filesystem) filename rest acc :
  fs !! filename = None →
  load_results rt (filename :: rest) acc fs = load_results rt rest acc fs.
Proof.
  intros H. cbn [load_results].
  rewrite (io_bind_ok _ _ _ _ _ (path_exists_absent fs filename H)).
  by destruct (load_results rt rest acc fs).
Qed.

Lemma load_results_ok (fs : filesystem) filename rest acc content r :
  fs !! filename = Some (File content) → parse_text rt content = Ok r →
  load_results rt (filename :: rest) acc fs =
  (EvRead filename :: (load_results rt rest (acc ++ [r]) fs).1,
   (load_results rt rest (acc ++ [r]) fs).2).
Proof.
  intros Hf Hp. cbn [load_results].
  rewrite (io_bind_ok _ _ _ [] true) by (apply path_exists_present; eauto).
  cbn [fst snd app].
  by rewrite (io_bind_ok _ _ _ _ _ (parse_result_file_ok _ _ _ _ Hf Hp)).
Qed.

Lemma load_results_raise (fs : filesystem) filename rest acc content e :
  fs !! filename = Some (File content) → parse_text rt content = Raise e →
  load_results rt (filename :: rest) acc fs = ([EvRead filename], Raise e).
Proof.
  intros Hf Hp. cbn [load_results].
  rewrite (io_bind_ok _ _ _ [] true) by (apply path_exists_present; eauto).
  cbn [fst snd app].
  by rewrite (io_bind_raise _ _ _ _ _ (parse_result_file_raise _ _ _ _ Hf Hp)).
Qed.

Lemma load_results_all_absent (fs : filesystem) filenames acc :
  (∀ f, In f filenames → fs !! f = None) →
  load_results rt filenames acc fs = ([], Ok acc).
Proof.
  induction filenames as [|f rest IH]; intros H; [done|].
  rewrite load_results_absent by (apply H; by left).
  apply IH. intros g Hg. apply H. by right.
Qed.


(** The loop stops at the first report that does not parse. *)
Lemma load_results_stops (fs : filesystem) (before : list string)
      (filename : string) (after : list string) (acc : list report)
      (content : str) (e : exn) :
  (∀ f, In f before →
        fs !! f = None ∨
        ∃ c r, fs !! f = Some (File c) ∧ parse_text rt c = Ok r) →
  fs !! filename = Some (File content) → parse_text rt content = Raise e →
  load_results rt (before ++ filename :: after) acc fs
  = (map EvRead (List.filter (λ f, bool_decide (is_Some (fs !! f))) before)
     ++ [EvRead filename],
     Raise e).
Proof.
  intros H Hf Hp. revert acc.
  induction before as [|g before IH]; intros acc; cbn [app].
  - by eapply load_results_raise.
  - destruct (H g (or_introl eq_refl)) as [Hg|(c & r & Hg & Hr)].
    + rewrite load_results_absent by done. cbn [List.filter].
      rewrite bool_decide_eq_false_2 by (rewrite Hg; by intros [? ?]).
      apply IH. intros; apply H; by right.
    + rewrite (load_results_ok _ _ _ _ _ _ Hg Hr). cbn [List.filter].
      rewrite bool_decide_eq_true_2 by (rewrite Hg; eauto).
      rewrite IH by (intros; apply H; by right). done.
Qed.



Lemma candidate_analysis_nothing (fs : filesystem) filenames variable
      nothing_found x_label chart_title image t :
  load_results rt filenames [] fs = (t, Ok []) →
  candidate_analysis rt filenames variable nothing_found x_label chart_title
                     image fs
  = (t ++ [EvPrint nothing_found], Ok tt).
Proof. intros H. unfold candidate_analysis. by rewrite (io_bind_ok _ _ _ _ _ H). Qed.

Lemma candidate_analysis_raise (fs : filesystem) filenames variable
      nothing_found x_label chart_title image t e :
  load_results rt filenames [] fs = (t, Raise e) →
  candidate_analysis rt filenames variable nothing_found x_label chart_title
                     image fs
  = (t, Raise e).
Proof. intros H. unfold candidate_analysis. by rewrite (io_bind_raise _ _ _ _ _ H). Qed.

Lemma analyze_patterns_absent (fs : filesystem) :
  fs !! "results/size_1000000.txt" = None →
  analyze_patterns rt fs
  = ([EvPrint "File results/size_1000000.txt not found."], Ok tt).
Proof.
  intros H. unfold analyze_patterns.
  by rewrite (io_bind_ok _ _ _ _ _ (path_exists_absent fs _ H)).
Qed.

Lemma main_steps (fs : filesystem) :
  is_Some (fs !! "results") →
  main rt fs =
  (analyze_tree_sizes rt ;;;
   analyze_branching_factors rt ;;;
   analyze_patterns rt ;;;
   print "Analysis complete. Graphs saved to results directory.")%io fs.
Proof.
  intros H. unfold main.
  rewrite (io_bind_ok _ _ _ _ _ (path_exists_present fs _ H)).
  cbn [negb fst snd app]. by destruct (io_bind _ _ fs).
Qed.

(** C8.  When [results] does not exist the run prints the diagnostic and
    returns: nothing is read, nothing is plotted or saved, no analysis
    leaves a trace. *)
Theorem main_without_results (fs : filesystem) :
  fs !! "results" = None →
  main rt fs = ([EvPrint "Results directory not found."], Ok tt).
Proof.
  intros H. unfold main.
  by rewrite (io_bind_ok _ _ _ _ _ (path_exists_absent fs _ H)).
Qed.

(** C9.  A candidate-value analysis that loads no report, as happens
    when none of its candidate files exists, prints its diagnostic and
    returns, without a chart and without an error; so does the
    by-pattern analysis when [results/size_1000000.txt] is missing; and
    the run goes on to its end. *)
Theorem analyses_without_data (fs : filesystem) :
  (∀ t, load_results rt (map size_filename sizes) [] fs = (t, Ok []) →
     analyze_tree_sizes rt fs
     = (t ++ [EvPrint "No tree size results found."], Ok tt)) ∧
  (∀ t, load_results rt (map bf_filename factors) [] fs = (t, Ok []) →
     analyze_branching_factors rt fs
     = (t ++ [EvPrint "No branching factor results found."], Ok tt)) ∧
  ((∀ size, In size sizes → fs !! size_filename size = None) →
     analyze_tree_sizes rt fs
     = ([EvPrint "No tree size results found."], Ok tt)) ∧
  ((∀ bf, In bf factors → fs !! bf_filename bf = None) →
     analyze_branching_factors rt fs
     = ([EvPrint "No branching factor results found."], Ok tt)) ∧
  (fs !! "results/size_1000000.txt" = None →
     analyze_patterns rt fs
     = ([EvPrint "File results/size_1000000.txt not found."], Ok tt)) ∧
  (is_Some (fs !! "results") →
   (∀ size, In size sizes → fs !! size_filename size = None) →
   (∀ bf, In bf factors → fs !! bf_filename bf = None) →
     main rt fs
     = ([EvPrint "No tree size results found.";
         EvPrint "No branching factor results found.";
         EvPrint "File results/size_1000000.txt not found.";
         EvPrint "Analysis complete. Graphs saved to results directory."],
        Ok tt)).
Proof.
  assert ((∀ size, In size sizes → fs !! size_filename size = None) →
          analyze_tree_sizes rt fs
          = ([EvPrint "No tree size results found."], Ok tt)) as Hs.
  { intros H. unfold analyze_tree_sizes.
    rewrite (candidate_analysis_nothing _ _ _ _ _ _ _ []); [done|].
    apply load_results_all_absent.
    intros f (size & <- & Hin)%in_map_iff. by apply H. }
  assert ((∀ bf, In bf factors → fs !! bf_filename bf = None) →
          analyze_branching_factors rt fs
          = ([EvPrint "No branching factor results found."], Ok tt)) as Hb.
  { intros H. unfold analyze_branching_factors.
    rewrite (candidate_analysis_nothing _ _ _ _ _ _ _ []); [done|].
    apply load_results_all_absent.
    intros f (bf & <- & Hin)%in_map_iff. by apply H. }
  split_and!; [|  |done|done|apply analyze_patterns_absent|].
  { intros t H. by apply candidate_analysis_nothing. }
  { intros t H. by apply candidate_analysis_nothing. }
  intros Hres H1 H2. rewrite main_steps by done.
  rewrite (io_bind_ok _ _ _ _ _ (Hs H1)).
  rewrite (io_bind_ok _ _ _ _ _ (Hb H2)).
  assert (fs !! "results/size_1000000.txt" = None) as H3.
  { apply (H1 1000000%Z). unfold sizes. simpl. tauto. }
  by rewrite (io_bind_ok _ _ _ _ tt (analyze_patterns_absent fs H3)).
Qed.

(** C2, as amended.  Nothing in the script catches an exception.  A
    parsing error met while an analysis loads its reports ends that
    analysis right after the file was read (the reports before it having
    been read, no chart drawn), and ends the run: [main] raises the same
    exception, after the traces of the analyses that came before and the
    partial trace of the failing one; no later analysis is entered and
    the closing message is not printed. *)
Theorem parse_error_ends_run (fs : filesystem) :
  is_Some (fs !! "results") →
  (∀ filenames variable nothing_found x_label chart_title image before
     filename after content e,
     filenames = before ++ filename :: after →
     (∀ f, In f before →
           fs !! f = None ∨
           ∃ c r, fs !! f = Some (File c) ∧ parse_text rt c = Ok r) →
     fs !! filename = Some (File content) →
     parse_text rt content = Raise e →
     candidate_analysis rt filenames variable nothing_found x_label
                        chart_title image fs
     = (map EvRead
            (List.filter (λ f, bool_decide (is_Some (fs !! f))) before)
        ++ [EvRead filename],
        Raise e)) ∧
  (∀ content e,
     fs !! "results/size_1000000.txt" = Some (File content) →
     parse_text rt content = Raise e →
     analyze_patterns rt fs
     = ([EvRead "results/size_1000000.txt"], Raise e)) ∧
  (∀ t e,
     analyze_tree_sizes rt fs = (t, Raise e) → main rt fs = (t, Raise e)) ∧
  (∀ t1 t2 e,
     analyze_tree_sizes rt fs = (t1, Ok tt) →
     analyze_branching_factors rt fs = (t2, Raise e) →
     main rt fs = (t1 ++ t2, Raise e)) ∧
  (∀ t1 t2 t3 e,
     analyze_tree_sizes rt fs = (t1, Ok tt) →
     analyze_branching_factors rt fs = (t2, Ok tt) →
     analyze_patterns rt fs = (t3, Raise e) →
     main rt fs = (t1 ++ t2 ++ t3, Raise e)).
Proof.
  intros Hres. split_and!.
  - intros filenames variable nothing_found x_label chart_title image before
      filename after content e -> Hbefore Hf Hp.
    apply candidate_analysis_raise. by eapply load_results_stops.
  - intros content e Hf Hp. unfold analyze_patterns.
    rewrite (io_bind_ok _ _ _ [] true) by (apply path_exists_present; eauto).
    cbn [negb fst snd app].
    by rewrite (io_bind_raise _ _ _ _ _ (parse_result_file_raise _ _ _ _ Hf Hp)).
  - intros t e H. rewrite main_steps by done.
    by rewrite (io_bind_raise _ _ _ _ _ H).
  - intros t1 t2 e H1 H2. rewrite main_steps by done.
    rewrite (io_bind_ok _ _ _ _ _ H1).
    by rewrite (io_bind_raise _ _ _ _ _ H2).
  - intros t1 t2 t3 e H1 H2 H3. rewrite main_steps by done.
    rewrite (io_bind_ok _ _ _ _ _ H1).
    rewrite (io_bind_ok _ _ _ _ _ H2).
    by rewrite (io_bind_raise _ _ _ _ _ H3).
Qed.

End Run.

(* ===================================================================== *)
(** * Sorting and aggregation *)
(* ===================================================================== *)

Section Sorting.

Context {A : Type} (lt : A → A → bool).

Lemma insert_sorted_perm (x : A) (l : list A) : insert_sorted lt x l ≡ₚ x :: l.
Proof.
  induction l as [|y l IH]; simpl; [done|].
  destruct (lt y x); [|done]. rewrite IH. apply perm_swap.
Qed.

Lemma sorted_perm (l : list A) : sorted lt l ≡ₚ l.
Proof.
  induction l as [|x l IH]; simpl; [done|].
  by rewrite insert_sorted_perm, IH.
Qed.

Context (R : relation A).
Context (lt_R : ∀ a b, lt a b = true → R a b).
Context (not_lt_R : ∀ a b, lt a b = false → R b a).

Lemma insert_sorted_HdRel (y x : A) (l : list A) :
  R y x → HdRel R y l → HdRel R y (insert_sorted lt x l).
Proof.
  intros Hyx Hl. destruct l as [|z l]; simpl; [by constructor|].
  inversion_clear Hl. destruct (lt z x); by constructor.
Qed.

Lemma insert_sorted_Sorted (x : A) (l : list A) :
  Sorted R l → Sorted R (insert_sorted lt x l).
Proof.
  induction l as [|y l IH]; simpl; intros Hl.
  - by repeat constructor.
  - inversion_clear Hl. destruct (lt y x) eqn:Hyx.
    + constructor; [by apply IH|]. apply insert_sorted_HdRel; auto.
    + constructor; [by constructor|]. constructor. auto.
Qed.

Lemma sorted_Sorted (l : list A) : Sorted R (sorted lt l).
Proof.
  induction l as [|x l IH]; simpl; [constructor|].
  by apply insert_sorted_Sorted.
Qed.

End Sorting.

Section StringOrder.

(** [a <= b] on [str]. *)
Local Abbreviation str_le := (λ a b : string, str_lt b a = false).

Lemma str_lt_spec a b : str_lt a b = true ↔ String_as_OT.lt a b.
Proof.
  unfold str_lt, String_as_OT.lt.
  destruct (String_as_OT.compare a b); split; congruence.
Qed.

Lemma str_lt_irrefl a : str_lt a a = false.
Proof.
  apply not_true_iff_false. intros H%str_lt_spec.
  by apply (StrictOrder_Irreflexive (R := String_as_OT.lt)) in H.
Qed.

Lemma str_lt_trans a b c :
  str_lt a b = true → str_lt b c = true → str_lt a c = true.
Proof.
  rewrite !str_lt_spec. apply (StrictOrder_Transitive (R := String_as_OT.lt)).
Qed.

Lemma str_lt_asym a b : str_lt a b = true → str_lt b a = false.
Proof.
  intros H. apply not_true_iff_false. intros H'.
  pose proof (str_lt_trans _ _ _ H H') as Haa.
  by rewrite str_lt_irrefl in Haa.
Qed.

(** Of two different names one comes first. *)
Lemma str_lt_total a b :
  str_lt a b = false → str_lt b a = false → a = b.
Proof.
  intros Hab Hba.
  destruct (String_as_OT.compare_spec a b) as [?|H|H]; [done|..];
    apply str_lt_spec in H; congruence.
Qed.

Lemma str_le_trans : Transitive str_le.
Proof.
  intros a b c Hab Hbc. simpl in *.
  destruct (str_lt c a) eqn:Hca; [|done].
  destruct (str_lt b c) eqn:Hb.
  - pose proof (str_lt_trans _ _ _ Hb Hca). congruence.
  - assert (b = c) as -> by (by apply str_lt_total). congruence.
Qed.



(** Names in ascending order, no two alike, are in strictly ascending
    order. *)
Lemma str_le_strict (l : list string) :
  Sorted str_le l → NoDup l → StronglySorted (λ a b, str_lt a b = true) l.
Proof.
  intros Hs%(@Sorted_StronglySorted _ str_le str_le_trans) Hnd.
  induction Hs as [|a l Hs IH Hall]; [constructor|].
  apply NoDup_cons in Hnd as [Ha Hnd].
  constructor; [by apply IH|].
  rewrite Forall_forall in Hall |- *. intros b Hb.
  specialize (Hall b Hb). simpl in Hall.
  destruct (str_lt a b) eqn:Hab; [done|].
  assert (a = b) as -> by (by apply str_lt_total). by destruct Ha.
Qed.

Lemma sorted_str_strict (l : list string) :
  NoDup l → StronglySorted (λ a b, str_lt a b = true) (sorted str_lt l).
Proof.
  intros Hnd. apply str_le_strict.
  - apply sorted_Sorted; [apply str_lt_asym|done].
  - by rewrite sorted_perm.
Qed.

End StringOrder.

Section Aggregation.

Context (rt : runtime).

Lemma collect_patterns_spec (results : list report) (name : string) :
  name ∈ collect_patterns results ↔
  ∃ result pr, In result results ∧ In pr (pattern_results result) ∧
               pattern pr = name.
Proof.
  unfold collect_patterns.
  assert (∀ prs (acc : gset string),
            name ∈ fold_left (λ patterns pr, patterns ∪ {[ pattern pr ]})
                             prs acc ↔
            name ∈ acc ∨ ∃ pr, In pr prs ∧ pattern pr = name) as Hinner.
  { induction prs as [|pr prs IH]; intros acc; simpl.
    - split; [by left|]. by intros [?|(? & [] & _)].
    - rewrite IH. rewrite elem_of_union, elem_of_singleton. split.
      + intros [[?| ->]|(pr' & ? & ?)]; [by left|right..]; eauto.
      + intros [?|(pr' & [<-|?] & ?)]; [left; by left|left; by right|].
        right. eauto. }
  assert (∀ (acc : gset string),
            name ∈ fold_left
              (λ patterns result,
                 fold_left (λ patterns pr, patterns ∪ {[ pattern pr ]})
                           (pattern_results result) patterns) results acc ↔
            name ∈ acc ∨
            ∃ result pr, In result results ∧ In pr (pattern_results result) ∧
                         pattern pr = name) as Houter.
  { induction results as [|result results IH]; intros acc; simpl.
    - split; [by left|]. by intros [?|(? & ? & [] & _)].
    - rewrite IH, Hinner. split.
      + intros [[?|(pr & ? & ?)]|(r & pr & ? & ? & ?)];
          [by left|right..]; eauto 8.
      + intros [?|(r & pr & [<-|?] & ? & ?)];
          [left; by left|left; right; eauto|right; eauto]. }
  rewrite Houter. split; [|by right]. by intros [?%not_elem_of_empty|?].
Qed.

Lemma series_points_spec (variable : report → Z) (results : list report)
      (name : string) :
  series_points variable results name =
  (map fst (Spec.points_spec variable results name),
   map snd (Spec.points_spec variable results name)).
Proof.
  unfold series_points, Spec.points_spec.
  assert (∀ (v : Z) prs (x : list Z) (y : list float),
    fold_left
      (λ '(x, y) pr,
         if String.eqb (pattern pr) name
         then (x ++ [v], y ++ [keys_per_sec pr]) else (x, y)) prs (x, y) =
    (x ++ map fst (map (λ pr, (v, keys_per_sec pr))
                       (List.filter (λ pr, String.eqb (pattern pr) name) prs)),
     y ++ map snd (map (λ pr, (v, keys_per_sec pr))
                       (List.filter (λ pr, String.eqb (pattern pr) name) prs))))
    as Hinner.
  { intros v. induction prs as [|pr prs IH]; intros x y; simpl.
    - by rewrite !app_nil_r.
    - destruct (String.eqb (pattern pr) name); rewrite IH; [|done].
      simpl. by rewrite <-!app_assoc. }
  assert (∀ xy : list Z * list float,
    fold_left
      (λ xy result,
         fold_left
           (λ '(x, y) pr,
              if String.eqb (pattern pr) name
              then (x ++ [variable result], y ++ [keys_per_sec pr])
              else (x, y)) (pattern_results result) xy) results xy =
    (xy.1 ++ map fst (Spec.points_spec variable results name),
     xy.2 ++ map snd (Spec.points_spec variable results name))) as Houter.
  { unfold Spec.points_spec.
    induction results as [|result results IH]; intros [x y]; simpl.
    - by rewrite !app_nil_r.
    - rewrite Hinner, IH. simpl. by rewrite !map_app, !app_assoc. }
  by rewrite Houter.
Qed.

Lemma plot_series_trace (variable : report → Z) (results : list report)
      (colors : list rgba) (i : nat) (patterns : list string) fs :
  i + length patterns ≤ length colors →
  plot_series variable results colors i patterns fs =
  (map (λ '(name, color),
          EvPlt (plot (series_points variable results name).1
                      (series_points variable results name).2
                      "o-" name color))
       (zip patterns (drop i colors)),
   Ok tt).
Proof.
  revert i. induction patterns as [|name rest IH]; intros i Hlen; [done|].
  simpl in Hlen. cbn [plot_series].
  destruct (series_points variable results name) as [x y] eqn:Hxy.
  destruct (colors !! i) as [c|] eqn:Hc.
  2:{ apply lookup_ge_None in Hc. lia. }
  rewrite (drop_S _ _ _ Hc). unfold io_bind, lift, plt, emit.
  rewrite IH by lia. cbn. by rewrite Hxy.
Qed.

Lemma series_order_strict (results : list report) :
  StronglySorted (λ a b, str_lt a b = true) (series_order rt results).
Proof.
  apply sorted_str_strict. rewrite (set_listing_perm rt).
  apply NoDup_elements.
Qed.

Lemma series_order_elem (results : list report) (name : string) :
  In name (series_order rt results) ↔ name ∈ collect_patterns results.
Proof.
  unfold series_order. rewrite <-list_elem_of_In.
  rewrite sorted_perm, (set_listing_perm rt). apply elem_of_elements.
Qed.




End Aggregation.


Section Bars.

Context (rt : runtime).

Lemma zip_map_pair {A B C} (f : A → B) (g : A → C) (l : list A) :
  zip (map f l) (map g l) = map (λ a, (f a, g a)) l.
Proof. induction l as [|a l IH]; simpl; [done|]. by rewrite IH. Qed.

Lemma pair_lt_le (a b : string * float) :
  pair_lt a b = true → str_lt b.1 a.1 = false.
Proof.
  unfold pair_lt. destruct (String.eqb_spec a.1 b.1) as [->|_].
  - intros _. apply str_lt_irrefl.
  - apply str_lt_asym.
Qed.

Lemma pair_not_lt_le (a b : string * float) :
  pair_lt a b = false → str_lt a.1 b.1 = false.
Proof.
  unfold pair_lt. destruct (String.eqb_spec a.1 b.1) as [->|_]; [|done].
  intros _. apply str_lt_irrefl.
Qed.

Lemma analyze_patterns_ok (fs : filesystem) content result :
  fs !! "results/size_1000000.txt" = Some (File content) →
  parse_text rt content = Ok result →
  analyze_patterns rt fs =
  ([EvRead "results/size_1000000.txt";
    EvPlt (figure 10 6);
    EvPlt (bar (map fst (sorted_data result)) (map snd (sorted_data result)));
    EvPlt (xlabel "Deletion Pattern");
    EvPlt (ylabel "Deletion Speed (keys/second)");
    EvPlt (title ("Deletion Performance by Pattern (Tree Size: "
                  +:+ str_of_int (tree_size result) +:+ ")"));
    EvPlt (xticks_rotation 45);
    EvPlt tight_layout;
    EvPlt (savefig "results/pattern_performance.png");
    EvPlt close],
   Ok tt).
Proof.
  intros Hf Hp. unfold analyze_patterns.
  rewrite (io_bind_ok _ _ _ [] true) by (apply path_exists_present; eauto).
  cbn [negb fst snd app].
  by rewrite (io_bind_ok _ _ _ _ _ (parse_result_file_ok rt _ _ _ _ Hf Hp)).
Qed.

(** C3, as amended.  For every report at [results/size_1000000.txt] the
    by-pattern analysis draws one bar chart with one throughput value for
    every pattern result of that report (a name that occurs twice gets
    two), the bars in ascending lexicographic order of their names; when
    the names of the report are all different, that is exactly one bar
    for each distinct name. *)
Theorem bars_by_pattern (fs : filesystem) (content : str) (result : report) :
  fs !! "results/size_1000000.txt" = Some (File content) →
  parse_text rt content = Ok result →
  let bars := sorted_data result in
  bar_calls (analyze_patterns rt fs).1 = [(map fst bars, map snd bars)] ∧
  bars ≡ₚ map (λ pr, (pattern pr, keys_per_sec pr)) (pattern_results result) ∧
  length bars = length (pattern_results result) ∧
  Sorted (λ a b, str_lt b a = false) (map fst bars) ∧
  (NoDup (map pattern (pattern_results result)) →
     StronglySorted (λ a b, str_lt a b = true) (map fst bars) ∧
     (∀ name, In name (map fst bars) ↔ name ∈ Spec.distinct_names result) ∧
     length bars = size (Spec.distinct_names result)).
Proof.
  intros Hf Hp bars.
  assert (bars ≡ₚ map (λ pr, (pattern pr, keys_per_sec pr))
                      (pattern_results result)) as Hperm.
  { subst bars. unfold sorted_data. by rewrite sorted_perm, zip_map_pair. }
  assert (length bars = length (pattern_results result)) as Hlen.
  { by rewrite Hperm, length_map. }
  assert (Sorted (λ a b, str_lt b a = false) (map fst bars)) as Hsorted.
  { apply (Sorted_fmap fst (λ a b : string * float, str_lt b.1 a.1 = false)
                           (λ a b : string, str_lt b a = false)); [done|].
    apply sorted_Sorted; [apply pair_lt_le|].
    intros a b. apply pair_not_lt_le. }
  assert (map fst bars ≡ₚ map pattern (pattern_results result)) as Hnames.
  { rewrite Hperm, map_map. done. }
  split_and!; [|done|done|done|].
  - rewrite (analyze_patterns_ok fs content result Hf Hp). done.
  - intros Hnd. split_and!.
    + apply str_le_strict; [done|]. by rewrite Hnames.
    + intros name. unfold Spec.distinct_names.
      rewrite elem_of_list_to_set, <-list_elem_of_In. by rewrite Hnames.
    + unfold Spec.distinct_names. rewrite size_list_to_set by done.
      by rewrite length_map.
Qed.

End Bars.

(* ===================================================================== *)
(** * Further properties: the integer fields *)
(* ===================================================================== *)

Section IntegerFields.

Context (rt : runtime).

Lemma is_digit_not_space c : is_digit c = true → is_space c = false.
Proof.
  unfold is_digit, is_space, in_range.
  intros [H1 H2]%andb_true_iff.
  apply Nat.leb_le in H1, H2.
  apply orb_false_iff. split; apply andb_false_iff.
  - right. apply Nat.leb_gt. lia.
  - right. apply Nat.leb_gt. lia.
Qed.

Lemma is_digit_code c : is_digit c = true → 48 ≤ code c ≤ 57.
Proof.
  unfold is_digit, in_range. intros [H1 H2]%andb_true_iff.
  apply Nat.leb_le in H1, H2. lia.
Qed.

(** [strip] leaves alone a text that neither begins nor ends with
    whitespace. *)
Lemma strip_id (s : str) :
  match s with [] => True | c :: _ => is_space c = false end →
  match rev s with [] => True | c :: _ => is_space c = false end →
  strip s = s.
Proof.
  intros Hhead Hlast. unfold strip.
  destruct s as [|c s]; [done|]. rewrite Hhead.
  destruct (rev (c :: s)) as [|d r] eqn:Hrev.
  - by apply (f_equal (@length ascii)) in Hrev; rewrite length_rev in Hrev.
  - rewrite Hlast, <-Hrev. apply rev_involutive.
Qed.

Lemma strip_digits (ds : str) : forallb is_digit ds = true → strip ds = ds.
Proof.
  intros H. rewrite forallb_forall in H. apply strip_id.
  - destruct ds as [|c ds]; [done|]. apply is_digit_not_space, H. by left.
  - destruct (rev ds) as [|c r] eqn:Hrev; [done|].
    apply is_digit_not_space, H, in_rev. rewrite Hrev. by left.
Qed.

Lemma drop_underscores_id (prev : option ascii) (s : str) :
  (∀ c, In c s → Nat.eqb (code c) 95 = false) →
  drop_underscores prev s = Some s.
Proof.
  revert prev. induction s as [|c s IH]; intros prev H; [done|].
  simpl. rewrite (H c) by (by left).
  rewrite IH by (intros; apply H; by right). done.
Qed.

Lemma digits_val_nonneg_from (ds : str) (acc : Z) :
  forallb is_digit ds = true → (0 ≤ acc)%Z →
  (0 ≤ fold_left (λ acc c, (10 * acc + digit_val c)%Z) ds acc)%Z.
Proof.
  revert acc. induction ds as [|c ds IH]; intros acc H Hacc; [done|].
  simpl in H. apply andb_true_iff in H as [Hc H].
  simpl. apply IH; [done|].
  apply is_digit_code in Hc. unfold digit_val. lia.
Qed.

Lemma digits_val_nonneg (ds : str) :
  forallb is_digit ds = true → (0 ≤ digits_val ds)%Z.
Proof. intros H. by apply digits_val_nonneg_from. Qed.

(** [int] on a run of digits: the value of the digits, unless there are
    more of them than the interpreter allows. *)
Lemma int_digits (max_digits : nat) (ds : str) :
  forallb is_digit ds = true → ds ≠ [] →
  int max_digits ds = int_of_digits max_digits ds.
Proof.
  intros Hds Hne. unfold int, int_of_digits.
  rewrite strip_digits by done.
  rewrite drop_underscores_id.
  2:{ intros c Hc. rewrite forallb_forall in Hds.
      apply Hds, is_digit_code in Hc. apply Nat.eqb_neq. lia. }
  destruct ds as [|c ds]; [done|].
  assert (split_sign (c :: ds) = (false, c :: ds)) as ->.
  { simpl in Hds. apply andb_true_iff in Hds as [Hc _].
    apply is_digit_code in Hc. unfold split_sign.
    destruct (Nat.eqb_spec (code c) 45); [lia|].
    destruct (Nat.eqb_spec (code c) 43); [lia|done]. }
  rewrite Hds. done.
Qed.


(** What [re.search] captures for an integer pattern is a run of digits. *)
Lemma search_integer_group (label content : str) (m : match_obj) :
  search (integer_re label) content = Some m →
  ∃ ds, m_groups m = [ds] ∧ forallb is_digit ds = true ∧ ds ≠ [].
Proof.
  intros (k & _ & _ & Hin & _)%scan_some.
  apply matches_sem in Hin as (w & _ & Hw).
  destruct Hw as (w1 & w2 & g1 & g2 & _ & Hg & [_ ->] & gs' & (Hlen & Hdig & ->) & ->).
  exists w2. split_and!; [by rewrite Hg|done|].
  intros ->. simpl in Hlen. lia.
Qed.


(** X2.  Whatever the text, a tree size or branching factor that is
    extracted is not negative; the extraction can only fail with a
    ValueError, and only when the interpreter's digit limit is switched on
    and the text is longer than the limit. *)
Theorem integer_fields_sound (content : str) :
  (∀ n, extract_tree_size rt content = Ok n → (0 ≤ n)%Z) ∧
  (∀ n, extract_branching_factor rt content = Ok n → (0 ≤ n)%Z) ∧
  (∀ e, extract_tree_size rt content = Raise e ∨
        extract_branching_factor rt content = Raise e →
        e = ValueError ∧ 0 < int_max_str_digits rt ∧
        int_max_str_digits rt < length content) ∧
  (∀ r, parse_text rt content = Ok r →
        (0 ≤ tree_size r)%Z ∧ (0 ≤ branching_factor r)%Z).
Proof.
  assert (∀ label,
            match search (integer_re label) content with
            | Some m =>
                ∃ ds, int (int_max_str_digits rt) (group m 1)
                      = int_of_digits (int_max_str_digits rt) ds ∧
                      forallb is_digit ds = true ∧ length ds ≤ length content
            | None => True
            end) as Hsearch.
  { intros label. destruct (search _ content) as [m|] eqn:Hs; [|done].
    pose proof Hs as (ds & Hg & Hds & Hne)%search_integer_group.
    exists ds. unfold group. rewrite Hg. cbn [Nat.pred nth].
    split_and!; [by apply int_digits|done|].
    apply scan_some in Hs as (k & Hk & _ & Hin & _).
    apply matches_sem in Hin as (w & Hd & Hw). rewrite Hg in Hw.
    destruct Hw as (w1 & w2 & g1 & g2 & -> & Hgs & [_ ->] & gs' & (_ & _ & ->) & Hg2).
    subst g2. simpl in Hgs. injection Hgs as ->.
    apply (f_equal (@length ascii)) in Hd.
    rewrite length_drop, !length_app in Hd. lia. }
  assert (∀ ds n, int_of_digits (int_max_str_digits rt) ds = Ok n →
                  forallb is_digit ds = true → (0 ≤ n)%Z) as Hok.
  { intros ds n. unfold int_of_digits.
    destruct (_ && _); [done|]. intros [= <-]. apply digits_val_nonneg. }
  assert (∀ ds e, int_of_digits (int_max_str_digits rt) ds = Raise e →
                  e = ValueError ∧ 0 < int_max_str_digits rt ∧
                  int_max_str_digits rt < length ds) as Hraise.
  { intros ds e. unfold int_of_digits.
    destruct (_ && _) eqn:Hlim; [|done]. intros [= <-].
    apply andb_true_iff in Hlim as [H1%Nat.ltb_lt H2%Nat.ltb_lt]. done. }
  assert (∀ n, extract_tree_size rt content = Ok n → (0 ≤ n)%Z) as Ht.
  { intros n. unfold extract_tree_size.
    specialize (Hsearch (lit "Keys: ")).
    change (integer_re (lit "Keys: ")) with keys_re in Hsearch.
    destruct (search keys_re content); [|by intros [= <-]].
    destruct Hsearch as (ds & -> & Hds & _). eauto. }
  assert (∀ n, extract_branching_factor rt content = Ok n → (0 ≤ n)%Z) as Hb.
  { intros n. unfold extract_branching_factor.
    specialize (Hsearch (lit "Branching Factor: ")).
    change (integer_re (lit "Branching Factor: ")) with bf_re in Hsearch.
    destruct (search bf_re content); [|by intros [= <-]].
    destruct Hsearch as (ds & -> & Hds & _). eauto. }
  split_and!; [done|done| |].
  - intros e [H|H].
    + unfold extract_tree_size in H.
      specialize (Hsearch (lit "Keys: ")).
      change (integer_re (lit "Keys: ")) with keys_re in Hsearch.
      destruct (search keys_re content); [|done].
      destruct Hsearch as (ds & Heq & _ & Hlen). rewrite Heq in H.
      apply Hraise in H as (? & ? & ?). split_and!; [done|done|lia].
    + unfold extract_branching_factor in H.
      specialize (Hsearch (lit "Branching Factor: ")).
      change (integer_re (lit "Branching Factor: ")) with bf_re in Hsearch.
      destruct (search bf_re content); [|done].
      destruct Hsearch as (ds & Heq & _ & Hlen). rewrite Heq in H.
      apply Hraise in H as (? & ? & ?). split_and!; [done|done|lia].
  - intros r. unfold parse_text.
    destruct (extract_tree_size rt content) as [n|] eqn:Hn; simpl; [|done].
    destruct (extract_branching_factor rt content) as [b|] eqn:Hbf; simpl;
      [|done].
    destruct (extract_pattern_results content); simpl; [|done].
    intros [= <-]. simpl. split; [by apply Ht|by apply Hb].
Qed.

End IntegerFields.

(* ===================================================================== *)
(** * Further properties: the floats the parser produces *)
(* ===================================================================== *)

Section Floats.

Lemma iter_pos_invariant {A} (P : A → Prop) (f : A → A) (p : positive) (x : A) :
  (∀ y, P y → P (f y)) → P x → P (SpecFloat.iter_pos f p x).
Proof.
  intros Hf. revert x. induction p as [p IH|p IH|]; intros x Hx; simpl; auto.
Qed.

Lemma shr_1_nonneg (mrs : shr_record) :
  (0 ≤ shr_m mrs)%Z → (0 ≤ shr_m (shr_1 mrs))%Z.
Proof.
  destruct mrs as [m r s]. simpl.
  destruct m as [|[p|p|]|p]; simpl; lia.
Qed.

Lemma shr_nonneg (mrs : shr_record) (e n : Z) :
  (0 ≤ shr_m mrs)%Z → (0 ≤ shr_m (shr mrs e n).1)%Z.
Proof.
  intros H. unfold shr. destruct n as [|p|p]; simpl; [done| |done].
  apply (iter_pos_invariant (λ x, (0 ≤ shr_m x)%Z)); [apply shr_1_nonneg|done].
Qed.

Lemma shr_fexp_nonneg (m e : Z) (l : location) :
  (0 ≤ m)%Z → (0 ≤ shr_m (shr_fexp prec emax m e l).1)%Z.
Proof.
  intros H. unfold shr_fexp. apply shr_nonneg.
  by destruct l as [|[]].
Qed.

Lemma round_nearest_even_nonneg (m : Z) (l : location) :
  (0 ≤ m)%Z → (0 ≤ round_nearest_even m l)%Z.
Proof.
  intros H. unfold round_nearest_even.
  destruct l as [|[]]; [done|..]; [destruct (Z.even m)|..]; lia.
Qed.

(** Rounding a magnitude that is not negative gives no NaN and keeps the
    sign. *)
Lemma binary_round_aux_nonneg (m e : Z) (l : location) :
  (0 ≤ m)%Z → nonneg_float (binary_round_aux prec emax false m e l) = true.
Proof.
  intros H. unfold binary_round_aux.
  pose proof (shr_fexp_nonneg m e l H) as H1.
  destruct (shr_fexp prec emax m e l) as [mrs' e'].
  pose proof (shr_fexp_nonneg
                (round_nearest_even (shr_m mrs') (loc_of_shr_record mrs'))
                e' loc_Exact
                (round_nearest_even_nonneg _ _ H1)) as H2.
  destruct (shr_fexp prec emax _ e' loc_Exact) as [mrs'' e''].
  simpl in H2. destruct (shr_m mrs'') as [|p|p]; [done| |lia].
  by destruct (_ <=? _)%Z.
Qed.

Lemma binary_normalize_nonneg (m e : Z) :
  (0 ≤ m)%Z → nonneg_float (binary_normalize prec emax m e false) = true.
Proof.
  intros H. unfold binary_normalize. destruct m as [|p|p]; [done| |lia].
  unfold binary_round. destruct (shl_align _ _ _) as [mz ez].
  by apply binary_round_aux_nonneg.
Qed.

Lemma SFdiv_core_nonneg (m1 m2 : positive) (e1 e2 : Z) :
  (0 ≤ (SFdiv_core_binary prec emax (Zpos m1) e1 (Zpos m2) e2).1.1)%Z.
Proof.
  unfold SFdiv_core_binary.
  set (s := (_ - _ - _)%Z).
  set (m' := match s with Zpos _ => _ | Z0 => _ | Zneg _ => _ end).
  assert (0 ≤ m')%Z as Hm'.
  { subst m'. destruct s; [lia| |lia]. apply Z.shiftl_nonneg. lia. }
  pose proof (Z.div_pos m' (Zpos m2) Hm' eq_refl) as Hq.
  unfold Z.div in Hq. by destruct (Z.div_eucl m' (Zpos m2)).
Qed.

(** Dividing by a positive number keeps a float from being negative or
    NaN. *)
Lemma fdiv_nonneg (x : float) (my : positive) (ey : Z) :
  nonneg_float x = true →
  nonneg_float (fdiv x (S754_finite false my ey)) = true.
Proof.
  unfold fdiv. destruct x as [[]|[]| |[] mx ex]; try done.
  intros _. unfold SFdiv.
  pose proof (SFdiv_core_nonneg mx my ex ey) as H.
  destruct (SFdiv_core_binary _ _ _ _ _ _) as [[mz ez] lz].
  by apply binary_round_aux_nonneg.
Qed.

Lemma decimal_to_float_nonneg (m e : Z) :
  (0 ≤ m)%Z → nonneg_float (decimal_to_float false m e) = true.
Proof.
  intros H. unfold decimal_to_float. destruct m as [|p|p]; [done| |lia].
  destruct (0 <=? e)%Z eqn:He.
  - apply binary_normalize_nonneg. apply Z.leb_le in He.
    pose proof (Z.pow_nonneg 10 e). nia.
  - unfold SFdiv.
    pose proof (SFdiv_core_nonneg p (Z.to_pos (10 ^ (- e))) 0 0) as Hq.
    destruct (SFdiv_core_binary _ _ _ _ _ _) as [[mz ez] lz].
    by apply binary_round_aux_nonneg.
Qed.

Lemma span_digits_spec (s ds r : str) :
  span_digits s = (ds, r) →
  s = ds ++ r ∧ forallb is_digit ds = true ∧ ends_run is_digit r.
Proof.
  revert ds r. induction s as [|c s IH]; intros ds r; simpl.
  - by intros [= <- <-].
  - destruct (is_digit c) eqn:Hc.
    + destruct (span_digits s) as [ds' r'].
      intros [= <- <-]. destruct (IH ds' r' eq_refl) as (-> & Hds & Hr).
      simpl. by rewrite Hc, Hds.
    + intros [= <- <-]. done.
Qed.

Lemma digit_or_dot_cases c :
  digit_or_dot c = true → is_digit c = true ∨ c = "."%char.
Proof.
  unfold digit_or_dot, is_dot. intros [H|H%Nat.eqb_eq]%orb_true_iff.
  - by left.
  - right. unfold code in H. rewrite <-(ascii_nat_embedding c), H. done.
Qed.

(** A digit or a dot at the head of a numeral is neither whitespace, nor
    an underscore, nor a sign, nor a letter. *)
Lemma digit_or_dot_head c :
  digit_or_dot c = true →
  is_space c = false ∧ Nat.eqb (code c) 95 = false ∧
  Nat.eqb (code c) 45 = false ∧ Nat.eqb (code c) 43 = false ∧
  to_lower c = c ∧ c ≠ "i"%char ∧ c ≠ "n"%char ∧ c ≠ "m"%char ∧
  c ≠ "s"%char.
Proof.
  intros [H| ->]%digit_or_dot_cases.
  - pose proof (is_digit_code c H) as Hc.
    split_and!.
    + by apply is_digit_not_space.
    + apply Nat.eqb_neq. lia.
    + apply Nat.eqb_neq. lia.
    + apply Nat.eqb_neq. lia.
    + unfold to_lower, in_range.
      destruct (Nat.leb_spec 65 (code c)); [lia|done].
    + intros ->. vm_compute in Hc. lia.
    + intros ->. vm_compute in Hc. lia.
    + intros ->. vm_compute in Hc. lia.
    + intros ->. vm_compute in Hc. lia.
  - by split_and!.
Qed.

Lemma strip_head (c : ascii) (s : str) :
  is_space c = false → ∃ s', strip (c :: s) = c :: s'.
Proof.
  intros Hc. unfold strip. rewrite Hc.
  set (dropl := fix dropl (s : str) : str :=
                  match s with
                  | c :: s' => if is_space c then dropl s' else s
                  | [] => []
                  end).
  assert (∀ l, ∃ l', dropl (l ++ [c]) = l' ++ [c]) as Hsnoc.
  { induction l as [|a l [l' IH]]; simpl.
    - rewrite Hc. by exists [].
    - destruct (is_space a); [by exists l'|by exists (a :: l)]. }
  destruct (Hsnoc (rev s)) as [l' Hl'].
  change (rev (c :: s)) with (rev s ++ [c]). rewrite Hl'.
  rewrite rev_unit. by eexists.
Qed.

(** [float] of a text that begins with a digit or a dot, when it
    converts, gives a float that is neither negative nor NaN. *)
Lemma float_of_str_nonneg (c : ascii) (s : str) (v : float) :
  digit_or_dot c = true → float_of_str (c :: s) = Ok v →
  nonneg_float v = true.
Proof.
  intros (Hsp & Hus & Hminus & Hplus & Hlow & Hi & Hn & _)%digit_or_dot_head.
  unfold float_of_str.
  destruct (strip_head c s Hsp) as [s1 ->].
  cbn [drop_underscores]. rewrite Hus.
  destruct (drop_underscores (Some c) s1) as [t1|]; cbn [option_map]; [|done].
  unfold split_sign. rewrite Hminus, Hplus.
  cbn [map]. rewrite Hlow.
  rewrite !bool_decide_eq_false_2.
  2:{ intros [= -> _]. by destruct Hn. }
  2:{ intros [= -> _]. by destruct Hi. }
  2:{ intros [= -> _]. by destruct Hi. }
  cbn [orb].
  destruct (span_digits (c :: t1)) as [ip r1] eqn:Hip.
  apply span_digits_spec in Hip as (_ & Hipd & _).
  destruct (match r1 with
            | [] => ([], [])
            | c0 :: r => if is_dot c0 then span_digits r else ([], r1)
            end) as [fp r2] eqn:Hfp.
  assert (forallb is_digit fp = true) as Hfpd.
  { destruct r1 as [|c0 r]; [by injection Hfp as <- _|].
    destruct (is_dot c0); [|by injection Hfp as <- _].
    by apply span_digits_spec in Hfp as (_ & ? & _). }
  destruct (ip ++ fp) as [|d ds] eqn:Hds; [done|].
  destruct (parse_exponent r2) as [e|]; [|done].
  intros [= <-]. apply decimal_to_float_nonneg.
  rewrite <-Hds. apply digits_val_nonneg. by rewrite forallb_app, Hipd, Hfpd.
Qed.

Lemma replace_head (old : str) (c : ascii) (s : str) :
  match old with [] => False | a :: _ => a ≠ c end →
  ∃ s', replace old [] (c :: s) = c :: s'.
Proof.
  destruct old as [|a old]; [done|]. intros Hne.
  unfold replace. cbn [replace_from startswith]. unfold char_eqb.
  destruct (Ascii.eqb_spec a c); [done|]. cbn [andb]. by eexists.
Qed.

(** A duration token that converts gives a time that is neither negative
    nor NaN. *)
Lemma time_seconds_nonneg (c : ascii) (s : str) (v : float) :
  digit_or_dot c = true → time_seconds (c :: s) = Ok v →
  nonneg_float v = true.
Proof.
  intros Hc. pose proof Hc as (_ & _ & _ & _ & _ & _ & _ & Hm & Hs)%digit_or_dot_head.
  unfold time_seconds.
  destruct (contains (lit "ms") (c :: s)).
  - destruct (replace_head (lit "ms") c s) as [s' ->]; [by intros ?|].
    destruct (float_of_str (c :: s')) as [x|] eqn:Hx; [|done].
    intros [= <-]. apply float_of_str_nonneg in Hx; [|done].
    by apply (fdiv_nonneg x 8796093022208000 (-43)).
  - destruct (contains (lit "s") (c :: s)).
    + destruct (replace_head (lit "s") c s) as [s' ->]; [by intros ?|].
      by apply float_of_str_nonneg.
    + by apply float_of_str_nonneg.
Qed.

End Floats.

(* ===================================================================== *)
(** * Further properties: the pattern results *)
(* ===================================================================== *)

Section PatternResults.

Context (rt : runtime).

Lemma rmapM_Forall2 {A B} (f : A → result B) (l : list A) (k : list B) :
  rmapM f l = Ok k ↔ Forall2 (λ x y, f x = Ok y) l k.
Proof.
  revert k. induction l as [|x l IH]; intros k; simpl.
  - split; [intros [= <-]; constructor|by inversion 1].
  - destruct (f x) as [y|] eqn:Hx; simpl.
    + destruct (rmapM f l) as [ys|] eqn:Hl; simpl.
      * split.
        -- intros [= <-]. constructor; [done|]. by apply IH.
        -- inversion 1 as [|? y' ? ys' Hy Hys]; subst.
           apply IH in Hys. congruence.
      * split; [done|]. inversion 1 as [|? y' ? ys' Hy Hys]; subst.
        by apply IH in Hys.
    + split; [done|]. inversion 1; congruence.
Qed.

(** The groups of a match of the trial pattern: a name, a duration token
    and a throughput numeral. *)
Lemma sem_trial_groups (w : str) (gs : list str) :
  sem trial_re w gs →
  ∃ name tok num,
    gs = [name; tok; num] ∧ lang name_re name ∧ lang duration_re tok ∧
    lang (Rep true digit_or_dot 1) num.
Proof.
  intros (w1 & r1 & g1 & g1' & _ & -> & [_ ->] & Hr).
  destruct Hr as (name & r2 & g2 & g2' & _ & -> & (gn & (Hn1 & Hn2 & ->) & ->) & Hr).
  destruct Hr as (any & r3 & g3 & g3' & _ & -> & (_ & _ & ->) & Hr).
  destruct Hr as (l1 & r4 & g4 & g4' & _ & -> & [_ ->] & Hr).
  destruct Hr as (tok & r5 & g5 & g5' & _ & -> & (gt & Htok & ->) & Hr).
  destruct Hr as (l2 & r6 & g6 & g6' & _ & -> & [_ ->] & Hr).
  destruct Hr as (num & r7 & g7 & g7' & _ & -> & (gm & (Hm1 & Hm2 & ->) & ->) & [_ ->]).
  assert (lang duration_re tok) as Htokl.
  { apply lang_sem. exists (tok :: gt). by exists gt. }
  destruct Htok as (? & ? & ? & ? & _ & -> & (_ & _ & ->) & (_ & _ & ->)).
  exists name, tok, num. by split_and!.
Qed.

Lemma findall_trial_groups (content : str) (gs : list str) :
  In gs (findall trial_re content) →
  ∃ name tok num,
    gs = [name; tok; num] ∧ lang name_re name ∧ lang duration_re tok ∧
    lang (Rep true digit_or_dot 1) num.
Proof.
  unfold findall. intros (m & <- & Hm)%in_map_iff.
  apply finditer_sound in Hm as (k & w & _ & _ & _ & Hw & _).
  by eapply sem_trial_groups.
Qed.

Lemma duration_head (tok : str) :
  lang duration_re tok → ∃ c s, tok = c :: s ∧ digit_or_dot c = true.
Proof.
  intros (w1 & w2 & -> & [Hlen Hw1] & _).
  destruct w1 as [|c w1]; [simpl in Hlen; lia|].
  simpl in Hw1. apply andb_true_iff in Hw1 as [Hc _].
  by exists c, (w1 ++ w2).
Qed.


Lemma parse_text_pattern_results (content : str) (r : report) :
  parse_text rt content = Ok r →
  Forall2 (λ gs pr, pattern_result_of gs = Ok pr)
          (findall trial_re content) (pattern_results r).
Proof.
  unfold parse_text.
  destruct (extract_tree_size rt content); simpl; [|done].
  destruct (extract_branching_factor rt content); simpl; [|done].
  destruct (extract_pattern_results content) as [prs|] eqn:Hprs; simpl;
    [|done].
  intros [= <-]. simpl. by apply rmapM_Forall2.
Qed.

Lemma pattern_results_Forall (P : pattern_result → Prop) (content : str)
      (r : report) :
  (∀ name tok num pr,
     lang name_re name → lang duration_re tok →
     lang (Rep true digit_or_dot 1) num →
     pattern_result_of [name; tok; num] = Ok pr → P pr) →
  parse_text rt content = Ok r → Forall P (pattern_results r).
Proof.
  intros HP Hr%parse_text_pattern_results.
  assert (Forall (λ gs, In gs (findall trial_re content))
                 (findall trial_re content)) as Hall.
  { by apply List.Forall_forall. }
  revert Hr Hall. generalize (findall trial_re content) at 1 3.
  generalize (pattern_results r).
  intros k l Hlk. induction Hlk as [|gs pr l k Hpr _ IH]; intros Hall.
  { constructor. }
  inversion Hall as [|? ? Hgs Hl]; subst. constructor; [|by apply IH].
  apply findall_trial_groups in Hgs
    as (name & tok & num & -> & Hn & Ht & Hm).
  by eapply HP.
Qed.



(** X4.  Every pattern result of a parsed report has a time and a
    throughput that are zero, positive and finite, or positive infinity:
    never negative and never NaN. *)
Theorem pattern_values_nonneg (content : str) (r : report) :
  parse_text rt content = Ok r →
  Forall (λ pr, nonneg_float (time_sec pr) = true ∧
                nonneg_float (keys_per_sec pr) = true)
         (pattern_results r).
Proof.
  apply pattern_results_Forall.
  intros name tok num pr _ (c & s & -> & Hc)%duration_head [Hlen Hnum].
  unfold pattern_result_of. cbn [nth].
  destruct (time_seconds (c :: s)) as [t|] eqn:Ht; simpl; [|done].
  destruct (float_of_str num) as [v|] eqn:Hv; simpl; [|done].
  intros [= <-]. cbn [time_sec keys_per_sec]. split.
  - by eapply time_seconds_nonneg.
  - destruct num as [|d num]; [simpl in Hlen; lia|].
    simpl in Hnum. apply andb_true_iff in Hnum as [Hd _].
    by eapply float_of_str_nonneg.
Qed.


End PatternResults.

(* ===================================================================== *)
(** * Further properties: several trials in one report *)
(* ===================================================================== *)

Section Blocks.






End Blocks.

(* ===================================================================== *)
(** * Further properties: which numerals convert *)
(* ===================================================================== *)

Section Numerals.

Lemma digit_or_dot_plain (num : str) :
  forallb digit_or_dot num = true →
  strip num = num ∧ drop_underscores None num = Some num ∧
  map to_lower num = num.
Proof.
  intros H. rewrite forallb_forall in H. split_and!.
  - apply strip_id.
    + destruct num as [|c num]; [done|].
      apply digit_or_dot_head, H. by left.
    + destruct (rev num) as [|c r] eqn:Hrev; [done|].
      apply digit_or_dot_head, H, in_rev. rewrite Hrev. by left.
  - apply drop_underscores_id. intros c Hc. by apply digit_or_dot_head, H.
  - induction num as [|c num IH]; [done|]. simpl. f_equal.
    + apply digit_or_dot_head, H. by left.
    + apply IH. intros x Hx. apply H. by right.
Qed.

Lemma filter_digits (ds : str) :
  forallb is_digit ds = true →
  List.filter is_digit ds = ds ∧ List.filter is_dot ds = [].
Proof.
  induction ds as [|c ds IH]; [done|]. simpl.
  intros [Hc [Hd1 Hd2]%IH]%andb_true_iff. rewrite Hc, Hd1, Hd2.
  unfold is_dot. apply is_digit_code in Hc.
  destruct (Nat.eqb_spec (code c) 46); [lia|done].
Qed.

Lemma existsb_digits (ds : str) :
  forallb is_digit ds = true → existsb is_digit ds = negb (bool_decide (ds = [])).
Proof.
  destruct ds as [|c ds]; [done|]. simpl. by intros [-> _]%andb_true_iff.
Qed.

(** The character after a run of digits in a numeral is a dot. *)
Lemma numeral_after_digits (c : ascii) (r : str) :
  ends_run is_digit (c :: r) → digit_or_dot c = true → c = "."%char.
Proof.
  simpl. intros Hc [H| ->]%digit_or_dot_cases; [congruence|done].
Qed.

(** X7.  [float] of a text of digits and dots succeeds exactly when the
    text has at most one dot and at least one digit; it then gives the
    digits read as one integer and scaled down by ten for each digit after
    the dot.  Every other such text raises ValueError, and so does the
    trial whose throughput it is. *)
Theorem numeral_conversion (num : str) :
  forallb digit_or_dot num = true →
  float_of_str num
  = (if numeral_ok num then Ok (numeral_value num) else Raise ValueError) ∧
  ∀ name tok t,
    time_seconds tok = Ok t →
    pattern_result_of [name; tok; num]
    = if numeral_ok num
      then Ok {| pattern := String.string_of_list_ascii name;
                 time_sec := t;
                 keys_per_sec := numeral_value num |}
      else Raise ValueError.
Proof.
  intros Hnum.
  assert (float_of_str num
          = if numeral_ok num then Ok (numeral_value num)
            else Raise ValueError) as Hfloat; last first.
  { split; [done|]. intros name tok t Ht.
    unfold pattern_result_of. cbn [nth]. rewrite Ht, Hfloat.
    by destruct (numeral_ok num). }
  unfold float_of_str.
  destruct (digit_or_dot_plain num Hnum) as (-> & -> & Hlow).
  destruct num as [|c0 num0]; [done|].
  assert (digit_or_dot c0 = true) as Hc0.
  { simpl in Hnum. by apply andb_true_iff in Hnum as [? _]. }
  apply digit_or_dot_head in Hc0
    as (_ & _ & Hminus & Hplus & _ & Hi & Hn & _).
  unfold split_sign. rewrite Hminus, Hplus, Hlow.
  rewrite !bool_decide_eq_false_2.
  2:{ intros [= -> _]. by destruct Hn. }
  2:{ intros [= -> _]. by destruct Hi. }
  2:{ intros [= -> _]. by destruct Hi. }
  cbn [orb]. clear Hminus Hplus Hi Hn Hlow.
  generalize dependent (c0 :: num0). clear c0 num0. intros num Hnum.
  unfold numeral_ok, numeral_value.
  destruct (span_digits num) as [ip r1] eqn:Hip.
  apply span_digits_spec in Hip as (-> & Hipd & Hr1).
  rewrite forallb_app in Hnum. apply andb_true_iff in Hnum as [_ Hr1d].
  destruct (filter_digits ip Hipd) as [Hfd Hfo].
  rewrite !List.filter_app, Hfd, Hfo, existsb_app, (existsb_digits ip Hipd).
  cbn [snd app].
  destruct r1 as [|c r].
  { (* digits only *)
    rewrite !app_nil_r. cbn [List.filter length existsb orb].
    destruct ip as [|d ip]; [done|]. cbn [parse_exponent]. done. }
  simpl in Hr1d. apply andb_true_iff in Hr1d as [Hc Hrd].
  apply (numeral_after_digits c r Hr1) in Hc as ->.
  change (is_dot ".") with true. cbv iota.
  destruct (span_digits r) as [fp r2] eqn:Hfp.
  apply span_digits_spec in Hfp as (-> & Hfpd & Hr2).
  rewrite forallb_app in Hrd. apply andb_true_iff in Hrd as [_ Hr2d].
  destruct (filter_digits fp Hfpd) as [Hgd Hgo].
  change (List.filter is_dot ("."%char :: fp ++ r2))
    with ("."%char :: List.filter is_dot (fp ++ r2)).
  change (List.filter is_digit ("."%char :: fp ++ r2))
    with (List.filter is_digit (fp ++ r2)).
  change (existsb is_digit ("."%char :: fp ++ r2))
    with (existsb is_digit (fp ++ r2)).
  rewrite !List.filter_app, Hgd, Hgo, existsb_app, (existsb_digits fp Hfpd).
  cbn [app length].
  destruct r2 as [|c r2].
  { (* one dot *)
    rewrite !app_nil_r. cbn [List.filter length existsb orb Nat.leb andb].
    rewrite orb_false_r.
    destruct (ip ++ fp) as [|d ds] eqn:Hds.
    - apply app_eq_nil in Hds as [-> ->]. done.
    - cbn [parse_exponent].
      assert (negb (bool_decide (ip = [])) || negb (bool_decide (fp = []))
              = true) as ->.
      { destruct ip; [|done]. destruct fp; [done|]. done. }
      rewrite <-Hds. by rewrite Z.sub_0_l. }
  (* a second dot *)
  simpl in Hr2d. apply andb_true_iff in Hr2d as [Hc _].
  apply (numeral_after_digits c r2 Hr2) in Hc as ->.
  change (List.filter is_dot ("."%char :: r2))
    with ("."%char :: List.filter is_dot r2).
  cbn [length Nat.leb andb].
  destruct (ip ++ fp); [done|]. done.
Qed.

End Numerals.

(* ===================================================================== *)
(** * Further properties: what a run can do *)
(* ===================================================================== *)

Section RunOutcomes.

Context (rt : runtime).

Lemma int_raises (max_digits : nat) (s : str) (e : exn) :
  int max_digits s = Raise e → e = ValueError.
Proof.
  unfold int. destruct (drop_underscores None (strip s)); [|by intros [= <-]].
  destruct (split_sign _) as [neg ds].
  destruct (_ && _); [|by intros [= <-]].
  destruct (_ && _); [by intros [= <-]|done].
Qed.

Lemma float_of_str_raises (s : str) (e : exn) :
  float_of_str s = Raise e → e = ValueError.
Proof.
  unfold float_of_str.
  destruct (drop_underscores None (strip s)); [|by intros [= <-]].
  destruct (split_sign _) as [neg u].
  destruct (_ || _); [done|]. destruct (bool_decide _); [done|].
  destruct (span_digits u) as [ip r1].
  destruct (match r1 with [] => _ | _ => _ end) as [fp r2].
  destruct (ip ++ fp); [by intros [= <-]|].
  destruct (parse_exponent r2); [done|by intros [= <-]].
Qed.

Lemma rbind_raises {A B} (m : result A) (k : A → result B) (e : exn) :
  rbind m k = Raise e → m = Raise e ∨ ∃ a, m = Ok a ∧ k a = Raise e.
Proof.
  destruct m as [a|e']; simpl; intros H; [right; by exists a|left].
  by injection H as ->.
Qed.

Lemma time_seconds_raises (tok : str) (e : exn) :
  time_seconds tok = Raise e → e = ValueError.
Proof.
  unfold time_seconds. destruct (contains (lit "ms") tok).
  - intros [H|(v & _ & H)]%rbind_raises; [|done].
    by eapply float_of_str_raises.
  - destruct (contains (lit "s") tok); apply float_of_str_raises.
Qed.

Lemma pattern_result_of_raises (gs : list str) (e : exn) :
  pattern_result_of gs = Raise e → e = ValueError.
Proof.
  unfold pattern_result_of.
  intros [H|(t & _ & [H|(v & _ & H)]%rbind_raises)]%rbind_raises.
  - by eapply time_seconds_raises.
  - by eapply float_of_str_raises.
  - done.
Qed.

Lemma rmapM_raises {A B} (f : A → result B) (l : list A) (e : exn) :
  rmapM f l = Raise e → ∃ x, In x l ∧ f x = Raise e.
Proof.
  induction l as [|x l IH]; simpl; [done|].
  destruct (f x) as [y|e'] eqn:Hx; simpl.
  - destruct (rmapM f l); simpl; [done|].
    intros [= <-]. destruct IH as (x' & ? & ?); [done|]. exists x'. auto.
  - intros [= <-]. exists x. auto.
Qed.

Lemma parse_text_raises (content : str) (e : exn) :
  parse_text rt content = Raise e → e = ValueError.
Proof.
  unfold parse_text, extract_tree_size, extract_branching_factor.
  destruct (match search keys_re content with Some _ => _ | None => _ end)
    eqn:H1; simpl.
  2:{ intros [= <-]. destruct (search keys_re content); [|done].
      by eapply int_raises. }
  destruct (match search bf_re content with Some _ => _ | None => _ end)
    eqn:H2; simpl.
  2:{ intros [= <-]. destruct (search bf_re content); [|done].
      by eapply int_raises. }
  destruct (extract_pattern_results content) eqn:H3; simpl; [done|].
  intros [= <-]. apply rmapM_raises in H3 as (gs & _ & H3).
  by eapply pattern_result_of_raises.
Qed.

Lemma reads_app (t1 t2 : list event) : reads (t1 ++ t2) = reads t1 ++ reads t2.
Proof. apply flat_map_app. Qed.

Lemma saved_app (t1 t2 : list event) : saved (t1 ++ t2) = saved t1 ++ saved t2.
Proof. apply flat_map_app. Qed.

Lemma printed_app (t1 t2 : list event) :
  printed (t1 ++ t2) = printed t1 ++ printed t2.
Proof. apply flat_map_app. Qed.

Lemma trace_of_reads (l : list string) :
  reads (map EvRead l) = l ∧ saved (map EvRead l) = [] ∧
  printed (map EvRead l) = [].
Proof. induction l as [|f l (H1 & H2 & H3)]; [done|]. simpl. by rewrite H1. Qed.

Lemma trace_of_plots (t : list event) :
  Forall (λ e, match e with
               | EvPlt (savefig _) | EvRead _ | EvPrint _ => False
               | _ => True
               end) t →
  reads t = [] ∧ saved t = [] ∧ printed t = [].
Proof.
  induction 1 as [|e t He _ (H1 & H2 & H3)]; [done|].
  destruct e as [line|f|c]; try done.
  simpl. rewrite H1, H2, H3. by destruct c.
Qed.

Lemma existsb_filter {A} (P : A → bool) (l : list A) :
  existsb P l = negb (bool_decide (List.filter P l = [])).
Proof.
  induction l as [|a l IH]; [done|]. simpl. destruct (P a); [done|].
  by rewrite IH.
Qed.

Lemma parse_result_file_dir (fs : filesystem) (filename : string) :
  fs !! filename = Some Dir →
  parse_result_file rt filename fs = ([], Raise IsADirectoryError).
Proof.
  intros Hf. unfold parse_result_file, io_bind, read_file. by rewrite Hf.
Qed.

Lemma load_results_dir (fs : filesystem) filename rest acc :
  fs !! filename = Some Dir →
  load_results rt (filename :: rest) acc fs = ([], Raise IsADirectoryError).
Proof.
  intros Hf. cbn [load_results].
  rewrite (io_bind_ok _ _ _ [] true) by (apply path_exists_present; eauto).
  cbn [fst snd app].
  by rewrite (io_bind_raise _ _ _ _ _ (parse_result_file_dir _ _ Hf)).
Qed.

(** Every way the loading loop can end. *)
Lemma load_results_outcome (fs : filesystem) (filenames : list string)
      (acc : list report) :
  ∃ files r,
    load_results rt filenames acc fs = (map EvRead files, r) ∧
    sublist files filenames ∧
    Forall (λ f, is_file fs f = true) files ∧
    match r with
    | Ok results =>
        files = List.filter (exists_at fs) filenames ∧
        ∃ reports, results = acc ++ reports ∧ length reports = length files
    | Raise e => e = ValueError ∨ e = IsADirectoryError
    end.
Proof.
  revert acc. induction filenames as [|f rest IH]; intros acc.
  { exists [], (Ok acc). split_and!; try done.
    exists []. by rewrite app_nil_r. }
  destruct (fs !! f) as [[c|]|] eqn:Hf.
  - destruct (parse_text rt c) as [r|e] eqn:Hp.
    + destruct (IH (acc ++ [r])) as (files & res & Hl & Hsub & Hfiles & Hres).
      exists (f :: files), res. split_and!.
      * rewrite (load_results_ok _ _ _ _ _ _ _ Hf Hp), Hl. done.
      * by apply sublist_skip.
      * constructor; [|done]. unfold is_file. by rewrite Hf.
      * destruct res as [results|e]; [|done].
        destruct Hres as (-> & reports & -> & Hlen). split.
        -- cbn [List.filter]. unfold exists_at at 2.
           rewrite bool_decide_eq_true_2; [done|]. by rewrite Hf.
        -- exists (r :: reports). rewrite <-app_assoc. simpl. by rewrite Hlen.
    + exists [f], (Raise e). split_and!.
      * by rewrite (load_results_raise _ _ _ _ _ _ _ Hf Hp).
      * apply sublist_skip, sublist_nil_l.
      * constructor; [|done]. unfold is_file. by rewrite Hf.
      * left. by eapply parse_text_raises.
  - exists [], (Raise IsADirectoryError). split_and!.
    + by rewrite load_results_dir.
    + apply sublist_nil_l.
    + done.
    + by right.
  - destruct (IH acc) as (files & res & Hl & Hsub & Hfiles & Hres).
    exists files, res. split_and!.
    + by rewrite load_results_absent.
    + by apply sublist_cons.
    + done.
    + destruct res as [results|e]; [|done].
      destruct Hres as (-> & Hreports). split; [|done].
      cbn [List.filter]. unfold exists_at at 2.
      rewrite bool_decide_eq_false_2; [done|]. rewrite Hf. by intros [? ?].
Qed.

(** The trace of a candidate-value analysis that loaded a report. *)
Lemma candidate_analysis_chart (fs : filesystem) filenames variable
      nothing_found x_label chart_title image t r0 rs :
  load_results rt filenames [] fs = (t, Ok (r0 :: rs)) →
  let order := series_order rt (r0 :: rs) in
  candidate_analysis rt filenames variable nothing_found x_label chart_title
                     image fs
  = (t ++ EvPlt (figure 10 6) ::
       map (λ '(name, color),
              EvPlt (plot (series_points variable (r0 :: rs) name).1
                          (series_points variable (r0 :: rs) name).2
                          "o-" name color))
           (zip order (tab10_linspace rt (length order))) ++
       [EvPlt (xscale "log"); EvPlt (xlabel x_label);
        EvPlt (ylabel "Deletion Speed (keys/second)");
        EvPlt (title chart_title); EvPlt legend; EvPlt (grid true);
        EvPlt (savefig image); EvPlt close],
     Ok tt).
Proof.
  intros Hl order. unfold candidate_analysis.
  rewrite (io_bind_ok _ _ _ _ _ Hl). cbv iota. cbv zeta. fold order.
  rewrite (io_bind_ok _ _ _ [EvPlt (figure 10 6)] tt) by done.
  rewrite (io_bind_ok _ _ _ _ tt
             (plot_series_trace variable (r0 :: rs) _ 0 order fs
                (eq_ind_r (λ n, 0 + length order ≤ n) (le_n _)
                          (tab10_linspace_length rt _)))).
  done.
Qed.

Lemma analyze_patterns_raise (fs : filesystem) t e :
  is_Some (fs !! "results/size_1000000.txt") →
  parse_result_file rt "results/size_1000000.txt" fs = (t, Raise e) →
  analyze_patterns rt fs = (t, Raise e).
Proof.
  intros Hf Hp. unfold analyze_patterns.
  rewrite (io_bind_ok _ _ _ [] true) by (by apply path_exists_present).
  cbn [negb fst snd app].
  by rewrite (io_bind_raise _ _ _ _ _ Hp).
Qed.

Lemma outcome_candidate_analysis (fs : filesystem) filenames variable
      nothing_found x_label chart_title image :
  outcome fs [ {| st_files := filenames; st_image := image;
                  st_diagnostic := nothing_found |} ]
          (candidate_analysis rt filenames variable nothing_found x_label
                              chart_title image fs).
Proof.
  destruct (load_results_outcome fs filenames [])
    as (files & [results|e] & Hl & Hsub & Hfiles & Hres).
  - destruct Hres as (Hfilter & reports & -> & Hlen).
    unfold outcome. cbn [flat_map st_files]. rewrite app_nil_r.
    unfold stage_images, stage_messages. cbn [flat_map st_files app].
    rewrite existsb_filter, <-Hfilter.
    destruct reports as [|r0 rs].
    + destruct files; [|done].
      rewrite (candidate_analysis_nothing _ _ _ _ _ _ _ _ [] Hl).
      done.
    + cbn [app] in Hl.
      rewrite (candidate_analysis_chart _ _ variable nothing_found x_label
                 chart_title image _ _ _ Hl).
      cbn [fst snd].
      rewrite reads_app, saved_app, printed_app.
      destruct (trace_of_reads files) as (-> & -> & ->).
      change (?a :: ?l ++ ?k) with ([a] ++ l ++ k).
      rewrite !reads_app, !saved_app, !printed_app.
      match goal with
      | |- context [map ?f ?l] =>
          destruct (trace_of_plots (map f l)) as (-> & -> & ->)
      end.
      { apply Forall_forall. intros e (p & -> & _)%list_elem_of_fmap.
        by destruct p. }
      destruct files as [|f0 files']; [done|].
      rewrite bool_decide_eq_false_2 by done.
      simpl. by rewrite !app_nil_r.
  - unfold outcome.
    rewrite (candidate_analysis_raise _ _ _ _ _ _ _ _ _ _ Hl).
    cbn [fst snd]. destruct (trace_of_reads files) as (-> & -> & ->).
    split_and!; try done.
    eexists [], _, [], files. split_and!; done.
Qed.

Lemma outcome_analyze_patterns (fs : filesystem) :
  outcome fs [ {| st_files := ["results/size_1000000.txt"];
                  st_image := "results/pattern_performance.png";
                  st_diagnostic := "File results/size_1000000.txt not found."
               |} ]
          (analyze_patterns rt fs).
Proof.
  unfold outcome, stage_images, stage_messages.
  cbn [flat_map st_files st_image st_diagnostic app List.filter existsb].
  unfold exists_at.
  destruct (fs !! "results/size_1000000.txt") as [[c|]|] eqn:Hf.
  - rewrite bool_decide_eq_true_2 by eauto.
    assert (is_file fs "results/size_1000000.txt" = true) as Hfile.
    { unfold is_file. by rewrite Hf. }
    destruct (parse_text rt c) as [r|e] eqn:Hp.
    + rewrite (analyze_patterns_ok rt fs c r Hf Hp). cbn.
      split_and!; try done. by constructor.
    + rewrite (analyze_patterns_raise fs [EvRead "results/size_1000000.txt"] e);
        [|by rewrite Hf|by apply (parse_result_file_raise rt fs _ c)].
      cbn. split_and!; [by constructor|left; by eapply parse_text_raises|].
      eexists [], _, [], ["results/size_1000000.txt"].
      split_and!; done.
  - rewrite bool_decide_eq_true_2 by eauto.
    rewrite (analyze_patterns_raise fs [] IsADirectoryError);
      [|by rewrite Hf|by apply parse_result_file_dir].
    cbn. split_and!; [done|by right|].
    eexists [], _, [], []. split_and!; try done. apply sublist_nil_l.
  - rewrite bool_decide_eq_false_2 by (by intros [? ?]).
    rewrite (analyze_patterns_absent rt fs Hf). cbn. by split_and!.
Qed.

(** Two sequences of analyses run one after the other. *)
Lemma outcome_seq (fs : filesystem) (stages1 stages2 : list stage)
      (m1 m2 : io unit) :
  outcome fs stages1 (m1 fs) → outcome fs stages2 (m2 fs) →
  outcome fs (stages1 ++ stages2) (io_bind m1 (λ _, m2) fs).
Proof.
  unfold outcome, io_bind.
  destruct (m1 fs) as [t1 [[]|e1]]; destruct (m2 fs) as [t2 r2];
    cbn [fst snd].
  - intros (Hf1 & Hr1 & Hs1 & Hp1) (Hf2 & H2).
    rewrite reads_app, saved_app, printed_app.
    split; [by apply Forall_app|].
    rewrite Hr1, Hs1, Hp1.
    destruct r2 as [[]|e2].
    + destruct H2 as (-> & -> & ->).
      by rewrite !flat_map_app, List.filter_app.
    + destruct H2 as (He & before & failing & after & partial & -> & -> &
                      Hsub & -> & ->).
      split; [done|].
      exists (stages1 ++ before), failing, after, partial.
      rewrite !flat_map_app, List.filter_app, <-!app_assoc. done.
  - intros (Hf1 & He & before & failing & after & partial & -> & Hr1 &
            Hsub & Hs1 & Hp1) _.
    split; [done|]. split; [done|].
    exists before, failing, (after ++ stages2), partial.
    by rewrite <-app_assoc.
Qed.

Lemma io_seq4 {A B C D} (m1 : io A) (m2 : io B) (m3 : io C) (m4 : io D) fs :
  (m1 ;;; m2 ;;; m3 ;;; m4)%io fs
  = io_bind (m1 ;;; m2 ;;; m3)%io (λ _, m4) fs.
Proof.
  unfold io_bind. destruct (m1 fs) as [t1 [a|e]]; [|done].
  destruct (m2 fs) as [t2 [b|e]]; [|done].
  destruct (m3 fs) as [t3 [c|e]]; [|done].
  destruct (m4 fs) as [t4 r]. by rewrite !app_assoc.
Qed.

(** The three analyses of [main], and [main] in terms of them. *)
Lemma outcome_analyses (fs : filesystem) :
  outcome fs main_stages
          ((analyze_tree_sizes rt ;;; analyze_branching_factors rt ;;;
            analyze_patterns rt)%io fs).
Proof.
  apply (outcome_seq fs [_] [_; _]).
  { apply outcome_candidate_analysis. }
  apply (outcome_seq fs [_] [_]).
  { apply outcome_candidate_analysis. }
  apply outcome_analyze_patterns.
Qed.

Lemma main_analyses (fs : filesystem) :
  is_Some (fs !! "results") →
  main rt fs
  = io_bind (analyze_tree_sizes rt ;;; analyze_branching_factors rt ;;;
             analyze_patterns rt)%io
            (λ _, print completion_message) fs.
Proof. intros H. rewrite main_steps by done. apply io_seq4. Qed.





Lemma candidate_files_stages : flat_map st_files main_stages = candidate_files.
Proof. vm_compute. reflexivity. Qed.


(** X9.  A run that ends normally has opened every candidate path that
    exists, has saved the image of each analysis that found at least one
    of its files, and has printed the diagnostic of each analysis that
    found none, followed by the closing message. *)
Theorem run_success (fs : filesystem) :
  is_Some (fs !! "results") →
  (main rt fs).2 = Ok tt →
  reads (main rt fs).1 = List.filter (exists_at fs) candidate_files ∧
  saved (main rt fs).1 = flat_map (stage_images fs) main_stages ∧
  printed (main rt fs).1
  = flat_map (stage_messages fs) main_stages ++ [completion_message].
Proof.
  intros Hres. rewrite main_analyses by done.
  destruct (outcome_analyses fs) as [_ Hout]. set (m := (analyze_tree_sizes rt ;;; analyze_branching_factors rt ;;;
              analyze_patterns rt)%io) in *.
  unfold io_bind, print, emit. destruct (m fs) as [t [[]|e]]; cbn [fst snd] in *;
    [|done].
  intros _. destruct Hout as (Hr & Hs & Hp).
  rewrite reads_app, saved_app, printed_app, Hr, Hs, Hp.
  rewrite candidate_files_stages. cbn. by rewrite !app_nil_r.
Qed.


(** X11.  A directory at the path of a candidate report file makes the
    run end with an exception: the existence test lets it through and
    opening it fails, if nothing failed before. *)
Theorem directory_at_candidate (fs : filesystem) (f : string) :
  is_Some (fs !! "results") →
  In f candidate_files → fs !! f = Some Dir →
  ∃ e, (main rt fs).2 = Raise e.
Proof.
  intros Hres Hin Hdir. rewrite main_analyses by done.
  destruct (outcome_analyses fs) as [Hfiles Hout]. set (m := (analyze_tree_sizes rt ;;; analyze_branching_factors rt ;;;
              analyze_patterns rt)%io) in *.
  unfold io_bind, print, emit. destruct (m fs) as [t [[]|e']]; cbn [fst snd] in *;
    [|by exists e'].
  destruct Hout as (Hr & _). rewrite Hr, candidate_files_stages in Hfiles.
  rewrite List.Forall_forall in Hfiles. specialize (Hfiles f).
  unfold is_file in Hfiles. rewrite Hdir in Hfiles.
  discriminate Hfiles. apply filter_In. split; [done|].
  unfold exists_at. apply bool_decide_eq_true_2. by rewrite Hdir.
Qed.

End RunOutcomes.

(* ===================================================================== *)
(** * Further properties: every data point is drawn once *)
(* ===================================================================== *)

Section SeriesCover.

Context (rt : runtime).

Lemma strict_order_NoDup (l : list string) :
  StronglySorted (λ a b, str_lt a b = true) l → NoDup l.
Proof.
  induction 1 as [|a l _ IH Hall]; constructor; [|done].
  intros Hin%list_elem_of_In. rewrite List.Forall_forall in Hall.
  specialize (Hall a Hin). by rewrite str_lt_irrefl in Hall.
Qed.

Lemma sum_list_with_ext {A} (f g : A → nat) (l : list A) :
  (∀ a, f a = g a) → sum_list_with f l = sum_list_with g l.
Proof. intros H. induction l as [|a l IH]; simpl; [done|]. by rewrite H, IH. Qed.

Lemma sum_list_with_add {A} (f g : A → nat) (l : list A) :
  sum_list_with (λ a, f a + g a) l = sum_list_with f l + sum_list_with g l.
Proof. induction l as [|a l IH]; simpl; lia. Qed.

(** Over names that are all different, a pattern result falls under the
    name it carries and under no other. *)
Lemma count_by_name (order : list string) (prs : list pattern_result) :
  NoDup order →
  (∀ pr, In pr prs → In (pattern pr) order) →
  sum_list_with
    (λ name, length (List.filter (λ pr, String.eqb (pattern pr) name) prs))
    order
  = length prs.
Proof.
  intros Hnd. induction prs as [|pr prs IH]; intros Hin.
  { simpl. clear. by induction order. }
  assert (sum_list_with
            (λ name, if String.eqb (pattern pr) name then 1 else 0) order
          = 1) as Hone.
  { specialize (Hin pr (or_introl eq_refl)). clear IH.
    induction Hnd as [|a order Ha Hnd IH]; [done|]. simpl.
    destruct (String.eqb_spec (pattern pr) a) as [->|Hne].
    - assert (sum_list_with
                (λ name, if String.eqb a name then 1 else 0) order = 0)
        as ->; [|done].
      clear IH Hin Hnd. induction order as [|b order IH]; [done|]. simpl.
      destruct (String.eqb_spec a b) as [->|_].
      + destruct Ha. by left.
      + apply IH. intros H. apply Ha. by right.
    - rewrite IH; [done|]. destruct Hin as [Heq|Hin]; [|done].
      by destruct Hne. }
  transitivity
    (sum_list_with
       (λ name, (if String.eqb (pattern pr) name then 1 else 0)
                + length (List.filter (λ pr, String.eqb (pattern pr) name)
                                      prs))
       order).
  { apply sum_list_with_ext. intros name. simpl.
    by destruct (String.eqb (pattern pr) name). }
  rewrite sum_list_with_add, Hone, IH; [done|].
  intros p Hp. apply Hin. by right.
Qed.

Lemma points_total (variable : report → Z) (results : list report)
      (order : list string) :
  NoDup order →
  (∀ r pr, In r results → In pr (pattern_results r) →
           In (pattern pr) order) →
  sum_list_with
    (λ name, length (Spec.points_spec variable results name)) order
  = sum_list_with (λ r, length (pattern_results r)) results.
Proof.
  intros Hnd. induction results as [|r rs IH]; intros Hin.
  { simpl. clear. by induction order. }
  transitivity
    (sum_list_with
       (λ name,
          length (List.filter (λ pr, String.eqb (pattern pr) name)
                              (pattern_results r))
          + length (Spec.points_spec variable rs name))
       order).
  { apply sum_list_with_ext. intros name. unfold Spec.points_spec. simpl.
    by rewrite length_app, length_map. }
  rewrite sum_list_with_add, count_by_name, IH; [done| |done|].
  - intros r' pr Hr' Hpr. apply (Hin r' pr); [by right|done].
  - intros pr Hpr. apply (Hin r pr); [by left|done].
Qed.

(** X12.  In a candidate-value chart every series has as many x values as
    y values, a series is drawn for a name exactly when it has at least
    one point, and the series together have one point for every pattern
    result of every loaded report: no result is left out and none is
    drawn twice. *)
Theorem series_cover (variable : report → Z) (results : list report) :
  let order := series_order rt results in
  let points := series_points variable results in
  (∀ name, length (points name).1 = length (points name).2) ∧
  (∀ name, In name order ↔ (points name).1 ≠ []) ∧
  sum_list_with (λ name, length (points name).1) order
  = sum_list_with (λ r, length (pattern_results r)) results.
Proof.
  intros order points. subst points. split_and!.
  - intros name. rewrite series_points_spec. cbn [fst snd].
    by rewrite !length_map.
  - intros name. rewrite series_points_spec. cbn [fst].
    unfold order. rewrite series_order_elem, collect_patterns_spec.
    unfold Spec.points_spec. split.
    + intros (r & pr & Hr & Hpr & Hname) Hnil.
      apply (f_equal (@length Z)) in Hnil.
      rewrite length_map in Hnil. apply length_zero_iff_nil in Hnil.
      assert (In (variable r, keys_per_sec pr)
                 (flat_map
                    (λ result,
                       map (λ pr, (variable result, keys_per_sec pr))
                           (List.filter
                              (λ pr, String.eqb (pattern pr) name)
                              (pattern_results result))) results)) as Hin.
      { apply in_flat_map. exists r. split; [done|].
        apply in_map_iff. exists pr. split; [done|].
        apply filter_In. split; [done|]. by apply String.eqb_eq. }
      by rewrite Hnil in Hin.
    + intros Hne.
      destruct (flat_map _ results) as [|[x y] ps] eqn:Hps; [done|].
      assert (In (x, y) (flat_map
                    (λ result,
                       map (λ pr, (variable result, keys_per_sec pr))
                           (List.filter
                              (λ pr, String.eqb (pattern pr) name)
                              (pattern_results result))) results)) as Hin.
      { rewrite Hps. by left. }
      apply in_flat_map in Hin as (r & Hr & Hin).
      apply in_map_iff in Hin as (pr & _ & Hin).
      apply filter_In in Hin as [Hpr Hname%String.eqb_eq].
      by exists r, pr.
  - transitivity
      (sum_list_with
         (λ name, length (Spec.points_spec variable results name)) order).
    { apply sum_list_with_ext. intros name.
      rewrite series_points_spec. cbn [fst]. by rewrite length_map. }
    apply points_total.
    + apply strict_order_NoDup, series_order_strict.
    + intros r pr Hr Hpr. apply series_order_elem, collect_patterns_spec.
      by exists r, pr.
Qed.

End SeriesCover.

(* ===================================================================== *)
(** * Further properties: bars with the same name *)
(* ===================================================================== *)

Section BarOrder.

Lemma SFcompare_Lt_Gt (x y : float) :
  SFcompare x y = Some Lt → SFcompare y x = Some Gt.
Proof.
  destruct x as [sx|sx| |sx mx ex], y as [sy|sy| |sy my ey]; simpl;
    try done; try (by destruct sx); try (by destruct sy);
    try (by destruct sx, sy).
  destruct sx, sy; try done;
    change (PosDef.Pos.compare_cont Eq mx my) with (mx ?= my)%positive;
    change (PosDef.Pos.compare_cont Eq my mx) with (my ?= mx)%positive;
    rewrite (Z.compare_antisym ex ey), (Pos.compare_antisym mx my);
    by destruct (ex ?= ey)%Z, (mx ?= my)%positive.
Qed.

Lemma flt_asym (x y : float) : flt x y = true → flt y x = false.
Proof.
  unfold flt, SFltb. destruct (SFcompare x y) as [[]|] eqn:H; try done.
  by rewrite (SFcompare_Lt_Gt x y H).
Qed.

Lemma feq_not_flt (x y : float) : feq x y = true → flt x y = false.
Proof.
  unfold feq, flt, SFeqb, SFltb. by destruct (SFcompare x y) as [[]|].
Qed.

Lemma pair_lt_asym (a b : string * float) :
  pair_lt a b = true → pair_lt b a = false.
Proof.
  unfold pair_lt. rewrite (String.eqb_sym b.1 a.1).
  destruct (String.eqb a.1 b.1).
  - destruct (feq a.2 b.2); [done|]. intros H%flt_asym.
    by destruct (feq b.2 a.2).
  - apply str_lt_asym.
Qed.

(** X13.  The bars that the by-pattern analysis draws for a report come
    in the order of the (name, throughput) pairs: no bar is followed by
    one with a smaller name, and of two neighbours with the same name the
    second does not have the smaller throughput. *)
Theorem bars_in_pair_order (rt : runtime) (fs : filesystem) (content : str)
        (result : report) :
  fs !! "results/size_1000000.txt" = Some (File content) →
  parse_text rt content = Ok result →
  ∃ bars,
    bar_calls (analyze_patterns rt fs).1 = [(map fst bars, map snd bars)] ∧
    Sorted (λ a b, str_lt b.1 a.1 = false ∧
                   (a.1 = b.1 → flt b.2 a.2 = false))
           bars.
Proof.
  intros Hf Hp. exists (sorted_data result).
  rewrite (analyze_patterns_ok rt fs content result Hf Hp).
  split; [done|].
  unfold sorted_data.
  apply (sorted_Sorted pair_lt).
  - intros a b Hab. pose proof (pair_lt_asym a b Hab) as Hba.
    split; [by apply pair_lt_le|]. intros Heq.
    unfold pair_lt in Hba. rewrite Heq, String.eqb_refl in Hba.
    destruct (feq b.2 a.2) eqn:Hfeq; [by apply feq_not_flt|done].
  - intros a b Hab. split; [by apply pair_not_lt_le|]. intros Heq.
    unfold pair_lt in Hab. rewrite Heq, String.eqb_refl in Hab.
    destruct (feq a.2 b.2) eqn:Hfeq; [by apply feq_not_flt|done].
Qed.

End BarOrder.

(* ===================================================================== *)
(** * The scenarios of the specification, and inputs that settle the
      claims *)
(* ===================================================================== *)

Import Examples.

(** Closed facts about runs are settled by evaluation. *)
Ltac by_run := vm_compute; reflexivity.

(** Scenario A: a duration of 250ms is 0.25 seconds. *)
Example scenario_a :
  parse_text runtime1 report_a =
  Ok {| tree_size := 100000; branching_factor := 64;
        pattern_results :=
          [ {| pattern := "sequential"; time_sec := f0_25;
               keys_per_sec := f400000 |} ] |}.
Proof. by_run. Qed.

(** Scenario B: a duration of 1.5s is 1.5 seconds. *)
Example scenario_b :
  parse_text runtime1 report_b =
  Ok {| tree_size := 100000; branching_factor := 64;
        pattern_results :=
          [ {| pattern := "sequential"; time_sec := f1_5;
               keys_per_sec := f400000 |} ] |}.
Proof. by_run. Qed.

(** Scenario C: two of the three size reports exist; they are read in the
    order of the candidate sizes. *)
Example scenario_c :
  ∃ r1 r2,
    load_results runtime1 (map size_filename sizes) [] fs_sizes =
    ([EvRead "results/size_10000.txt"; EvRead "results/size_1000000.txt"],
     Ok [r1; r2]) ∧
    tree_size r1 = 100000%Z ∧ tree_size r2 = 1000000%Z.
Proof. eexists _, _. vm_compute. done. Qed.

(** Scenario D: the order of the series does not follow the order of
    appearance. *)
Example scenario_d :
  series_order runtime1 results_d1 = ["random"; "sequential"] ∧
  series_order runtime2 results_d1 = ["random"; "sequential"].
Proof. vm_compute. done. Qed.

(** Scenario E: no [results] directory. *)
Example scenario_e :
  main runtime1 ∅ = ([EvPrint "Results directory not found."], Ok tt).
Proof. by_run. Qed.

(** A duration token must have two characters at least: [[\d.]+\w+]. *)
Example one_digit_duration :
  findall trial_re
    (start_marker ++ lit "a " ++ completion (lit "5") (lit "1")) = [].
Proof. by_run. Qed.



(** C2 as stated fails: the first report read has a malformed
    throughput.  The run ends with the error right after reading it,
    although the two other analyses, run on their own, draw and save
    their charts. *)
Lemma parse_error_counterexample :
  main runtime1 fs_bad_size
  = ([EvRead "results/size_10000.txt"], Raise ValueError) ∧
  (analyze_branching_factors runtime1 fs_bad_size).2 = Ok tt ∧
  In (EvPlt (savefig "results/branching_factor_performance.png"))
     (analyze_branching_factors runtime1 fs_bad_size).1 ∧
  (analyze_patterns runtime1 fs_bad_size).2 = Ok tt ∧
  In (EvPlt (savefig "results/pattern_performance.png"))
     (analyze_patterns runtime1 fs_bad_size).1.
Proof. vm_compute. split_and!; try reflexivity; tauto. Qed.

Lemma parse_error_ends_run_witness :
  main runtime1 fs_bad_bf
  = ([EvPrint "No tree size results found."] ++ [EvRead "results/bf_64.txt"],
     Raise ValueError).
Proof.
  assert (is_Some (fs_bad_bf !! "results")) as Hres.
  { exists Dir. by_run. }
  destruct (parse_error_ends_run runtime1 fs_bad_bf Hres)
    as (Hload & _ & _ & Hmain & _).
  apply Hmain.
  - by_run.
  - unfold analyze_branching_factors.
    apply (Hload _ _ _ _ _ _
                 [bf_filename 16] (bf_filename 64)
                 [bf_filename 256; bf_filename 1024] report_bad).
    + by_run.
    + intros f [<-|[]]. left. by_run.
    + by_run.
    + by_run.
Defined.

(** C3 as stated fails: a report that tries one pattern twice has one
    distinct pattern name and gets two bars. *)
Lemma bars_counterexample :
  ∃ result,
    parse_text runtime1 report_twice = Ok result ∧
    size (Spec.distinct_names result) = 1 ∧
    bar_calls (analyze_patterns runtime1 fs_twice).1
    = [(["random"; "random"], [f5; f7])].
Proof. eexists. vm_compute. split_and!; reflexivity. Qed.

Lemma bars_by_pattern_witness :
  bar_calls (analyze_patterns runtime1 fs_sizes).1
  = [(["random"; "sequential"], [f5; f400000])].
Proof.
  assert (parse_text runtime1 report_two =
          Ok {| tree_size := 1000000; branching_factor := 16;
                pattern_results :=
                  [ {| pattern := "sequential"; time_sec := f0_25;
                       keys_per_sec := f400000 |};
                    {| pattern := "random"; time_sec := f1_5;
                       keys_per_sec := f5 |} ] |}) as Hp.
  { by_run. }
  assert (fs_sizes !! "results/size_1000000.txt" = Some (File report_two))
    as Hf.
  { by_run. }
  destruct (bars_by_pattern runtime1 fs_sizes report_two _ Hf Hp) as [-> _].
  by_run.
Defined.





Lemma main_without_results_witness :
  main runtime1 ∅ = ([EvPrint "Results directory not found."], Ok tt).
Proof. apply main_without_results. by_run. Defined.

Lemma analyses_without_data_witness :
  main runtime1 fs_empty
  = ([EvPrint "No tree size results found.";
      EvPrint "No branching factor results found.";
      EvPrint "File results/size_1000000.txt not found.";
      EvPrint "Analysis complete. Graphs saved to results directory."],
     Ok tt).
Proof.
  destruct (analyses_without_data runtime1 fs_empty)
    as (_ & _ & _ & _ & _ & H).
  apply H.
  - exists Dir. by_run.
  - intros size [<-|[<-|[<-|[]]]]; by_run.
  - intros bf [<-|[<-|[<-|[<-|[]]]]]; by_run.
Defined.


(* ===================================================================== *)
(** * Further properties: the theorems at sample inputs *)
(* ===================================================================== *)

Import MoreExamples.


Lemma integer_fields_sound_witness :
  (0 ≤ tree_size parsed_two)%Z ∧ (0 ≤ branching_factor parsed_two)%Z.
Proof.
  destruct (integer_fields_sound runtime1 report_two) as (_ & _ & _ & H).
  apply H. by_run.
Defined.


Lemma pattern_values_nonneg_witness :
  Forall (λ pr, nonneg_float (time_sec pr) = true ∧
                nonneg_float (keys_per_sec pr) = true)
         (pattern_results parsed_two).
Proof. apply (pattern_values_nonneg runtime1 report_two). by_run. Defined.



Lemma numeral_conversion_witness :
  float_of_str (lit "400000.00") = Ok f400000 ∧
  float_of_str (lit "1.2.3") = Raise ValueError.
Proof.
  split.
  - etransitivity; [apply (numeral_conversion (lit "400000.00")); by_run|].
    by_run.
  - etransitivity; [apply (numeral_conversion (lit "1.2.3")); by_run|].
    by_run.
Defined.


Lemma run_success_witness :
  saved (main runtime1 fs_sizes).1
  = ["results/tree_size_performance.png"; "results/pattern_performance.png"] ∧
  printed (main runtime1 fs_sizes).1
  = ["No branching factor results found."; completion_message].
Proof.
  destruct (run_success runtime1 fs_sizes) as (_ & -> & ->).
  - exists Dir. by_run.
  - by_run.
  - split; by_run.
Defined.


Lemma directory_at_candidate_witness :
  ∃ e, (main runtime1 fs_directory).2 = Raise e.
Proof.
  apply (directory_at_candidate runtime1 fs_directory "results/bf_16.txt").
  - exists Dir. by_run.
  - vm_compute. do 3 right. left. reflexivity.
  - by_run.
Defined.

Lemma series_cover_witness :
  sum_list_with
    (λ name, length (series_points tree_size results_d2 name).1)
    (series_order runtime1 results_d2)
  = sum_list_with (λ r, length (pattern_results r)) results_d2.
Proof.
  destruct (series_cover runtime1 tree_size results_d2) as (_ & _ & H).
  exact H.
Defined.

Lemma bars_in_pair_order_witness :
  ∃ bars,
    bar_calls (analyze_patterns runtime1 fs_twice).1
    = [(map fst bars, map snd bars)] ∧
    Sorted (λ a b, str_lt b.1 a.1 = false ∧
                   (a.1 = b.1 → flt b.2 a.2 = false))
           bars.
Proof.
  apply (bars_in_pair_order
           runtime1 fs_twice report_twice
           {| tree_size := 1000000; branching_factor := 0;
              pattern_results :=
                [ {| pattern := "random";
                     time_sec := S754_finite false 4503599627370496 (-51);
                     keys_per_sec := f7 |};
                  {| pattern := "random";
                     time_sec := S754_finite false 4503599627370496 (-52);
                     keys_per_sec := f5 |} ] |}).
  - by_run.
  - by_run.
Defined.
